(** * LocalImageGenerator: a shallow embedding of [Projects/ImageGenerator.py]

    The development follows the Python source function by function.

    - Text is ASCII text: a [string] of 7-bit characters.  [str.lower],
      [str.upper], [str.split], [str.strip] and the [in] operator are
      written out on that alphabet; Python's own are Unicode-aware, so a
      theorem whose truth depends on the case or on the blanks of a prompt
      asks for an ASCII prompt.
    - A Python [float] is the rational it denotes; every arithmetic
      operation rounds its exact result to the nearest binary64 value, ties
      to even, with gradual underflow ([rnd64]).  Results are assumed to
      stay below the overflow threshold.
    - A Pillow image is its size together with a pixel function; drawing
      clips to the canvas, as Pillow does.  Sizes are mathematical integers:
      the overflow of [Image.new] past the range of a C [int] is not
      modelled, so a theorem that promises a new image bounds its size.
    - [random], the wall clock, the disk and the console are fields of an
      explicit [World] threaded through a state-and-exception monad. *)

From Stdlib Require Import ZArith QArith Qround List String Ascii Bool Lia Arith.
Import ListNotations.

Local Open Scope string_scope.
Local Open Scope list_scope.

(** ** Python text primitives *)

Module PyStr.

Definition code (c : ascii) : nat := nat_of_ascii c.

Definition is_upper (c : ascii) : bool :=
  (65 <=? code c)%nat && (code c <=? 90)%nat.

Definition is_lower (c : ascii) : bool :=
  (97 <=? code c)%nat && (code c <=? 122)%nat.

(** [str.isspace] on ASCII: TAB, LF, VT, FF, CR, FS, GS, RS, US, SPACE. *)
Definition isspace (c : ascii) : bool :=
  ((9 <=? code c)%nat && (code c <=? 13)%nat)
  || ((28 <=? code c)%nat && (code c <=? 32)%nat).

(** [str.lower] and [str.upper], letter by letter, on ASCII. *)
Definition lower_char (c : ascii) : ascii :=
  if is_upper c then ascii_of_nat (code c + 32) else c.

Definition upper_char (c : ascii) : ascii :=
  if is_lower c then ascii_of_nat (code c - 32) else c.

Fixpoint smap (f : ascii -> ascii) (s : string) : string :=
  match s with
  | EmptyString => EmptyString
  | String c s' => String (f c) (smap f s')
  end.

Definition lower : string -> string := smap lower_char.
Definition upper : string -> string := smap upper_char.

Fixpoint all_chars (p : ascii -> bool) (s : string) : bool :=
  match s with
  | EmptyString => true
  | String c s' => p c && all_chars p s'
  end.

Definition is_empty (s : string) : bool :=
  match s with EmptyString => true | _ => false end.

(** [s.startswith(p)] *)
Fixpoint startswith (p s : string) : bool :=
  match p, s with
  | EmptyString, _ => true
  | String a p', String b s' => Ascii.eqb a b && startswith p' s'
  | String _ _, EmptyString => false
  end.

(** [kw in s]: some suffix of [s] starts with [kw]. *)
Fixpoint contains (kw s : string) : bool :=
  startswith kw s
  || match s with
     | EmptyString => false
     | String _ s' => contains kw s'
     end.

(** [s.split()]: the scanner keeps the word read so far in [cur] and
    emits it at each whitespace character and at the end of the text. *)
Definition flush (cur : string) : list string :=
  if is_empty cur then [] else [cur].

Fixpoint split_from (cur s : string) : list string :=
  match s with
  | EmptyString => flush cur
  | String c s' =>
      if isspace c then flush cur ++ split_from EmptyString s'
      else split_from (cur ++ String c EmptyString) s'
  end.

Definition split (s : string) : list string := split_from EmptyString s.

Fixpoint lstrip (s : string) : string :=
  match s with
  | EmptyString => EmptyString
  | String c s' => if isspace c then lstrip s' else s
  end.

Fixpoint rstrip (s : string) : string :=
  match s with
  | EmptyString => EmptyString
  | String c s' =>
      let r := rstrip s' in
      if is_empty r && isspace c then EmptyString else String c r
  end.

Definition strip (s : string) : string := rstrip (lstrip s).

(** [s[a:b]] for [0 <= a <= b]. *)
Definition slice (a b : nat) (s : string) : string := substring a (b - a) s.

(** [sep.join(ws)] *)
Definition join (sep : string) (ws : list string) : string := concat sep ws.

(** One hexadecimal digit. *)
Definition hex_digit (c : ascii) : option Z :=
  let n := code c in
  if (48 <=? n)%nat && (n <=? 57)%nat then Some (Z.of_nat (n - 48))
  else if (97 <=? n)%nat && (n <=? 102)%nat then Some (Z.of_nat (n - 87))
  else if (65 <=? n)%nat && (n <=? 70)%nat then Some (Z.of_nat (n - 55))
  else None.

Fixpoint hex_digits (acc : Z) (s : string) : option Z :=
  match s with
  | EmptyString => Some acc
  | String c s' =>
      match hex_digit c with
      | Some d => hex_digits (16 * acc + d) s'
      | None => None
      end
  end.

(** [int(s, 16)] on a run of hexadecimal digits; [None] is [ValueError].
    (Python also accepts a sign, surrounding blanks, a [0x] prefix and
    underscores; no colour of the catalog uses them.) *)
Definition int16 (s : string) : option Z :=
  if is_empty s then None else hex_digits 0 s.

End PyStr.

(** ** Python exceptions *)

Inductive exn : Type :=
| ZeroDivisionError
| ValueError
| IndexError
| KeyError
| UnboundLocalError
| OSError.

Inductive result (A : Type) : Type :=
| Ok (a : A)
| Raise (e : exn).

Arguments Ok {A} a.
Arguments Raise {A} e.

Definition rbind {A B} (r : result A) (k : A -> result B) : result B :=
  match r with
  | Ok a => k a
  | Raise e => Raise e
  end.

Definition of_option {A} (e : exn) (o : option A) : result A :=
  match o with
  | Some a => Ok a
  | None => Raise e
  end.

(** ** Python floats: binary64 with round-to-nearest-even *)

Module PyFloat.

Local Open Scope Z_scope.

(** [floor (log2 (n / d))] for positive [n] and [d]. *)
Definition floor_log2 (n d : Z) : Z :=
  let k := Z.log2 n - Z.log2 d in
  if 0 <=? k
  then (if d * 2 ^ k <=? n then k else k - 1)
  else (if d <=? n * 2 ^ (- k) then k else k - 1).

(** The integer nearest to [n / d], ties to even ([0 <= n], [0 < d]). *)
Definition rne (n d : Z) : Z :=
  let q := n / d in
  match 2 * (n mod d) ?= d with
  | Lt => q
  | Gt => q + 1
  | Eq => if Z.even q then q else q + 1
  end.

(** [m * 2 ^ e] *)
Definition scale2 (m e : Z) : Q :=
  if 0 <=? e then inject_Z (m * 2 ^ e) else Qmake m (Z.to_pos (2 ^ (- e))).

(** The binary64 value nearest to [n / d] for positive [n], [d]: a
    53-bit significand, and no exponent below [-1074]. *)
Definition rnd_pos (n d : Z) : Q :=
  let e := Z.max (floor_log2 n d - 52) (-1074) in
  let m := if 0 <=? e then rne n (d * 2 ^ e) else rne (n * 2 ^ (- e)) d in
  scale2 m e.

Definition rnd64 (q : Q) : Q :=
  match Qnum q with
  | Z0 => 0%Q
  | Zpos n => rnd_pos (Zpos n) (Zpos (Qden q))
  | Zneg n => Qopp (rnd_pos (Zpos n) (Zpos (Qden q)))
  end.

(** [float(n)] for a Python [int]. *)
Definition of_int (n : Z) : Q := rnd64 (inject_Z n).

Definition add (a b : Q) : Q := rnd64 (a + b)%Q.
Definition mul (a b : Q) : Q := rnd64 (a * b)%Q.

(** [a / b] on floats. *)
Definition div (a b : Q) : result Q :=
  if Qeq_bool b 0 then Raise ZeroDivisionError else Ok (rnd64 (a / b)%Q).

(** [x / w] on ints: the correctly rounded quotient. *)
Definition int_truediv (x w : Z) : result Q :=
  if w =? 0 then Raise ZeroDivisionError
  else Ok (rnd64 (inject_Z x / inject_Z w)%Q).

(** [int(a)]: truncation towards zero. *)
Definition to_int (a : Q) : Z := Z.quot (Qnum a) (Zpos (Qden a)).

(** [min(a, b)]: [b] when [b < a], else [a]. *)
Definition min (a b : Q) : Q := if Qle_bool a b then a else b.

(** The binary64 value nearest to [sqrt (n / d)] for positive [n], [d]. *)
Definition sqrt_pos (n d : Z) : Q :=
  let e := floor_log2 n d / 2 - 52 in
  let N := if 0 <=? e then n else n * 4 ^ (- e) in
  let D := if 0 <=? e then d * 4 ^ e else d in
  let m0 := Z.sqrt (N / D) in
  let m := match 4 * N ?= (4 * m0 * m0 + 4 * m0 + 1) * D with
           | Lt => m0
           | Gt => m0 + 1
           | Eq => if Z.even m0 then m0 else m0 + 1
           end in
  scale2 m e.

(** [math.sqrt(a)] on a float. *)
Definition sqrt (a : Q) : result Q :=
  match Qnum a with
  | Z0 => Ok 0%Q
  | Zpos n => Ok (sqrt_pos (Zpos n) (Zpos (Qden a)))
  | Zneg _ => Raise ValueError
  end.

End PyFloat.

(** ** Pillow images *)

Definition RGB : Type := (Z * Z * Z)%type.
Definition RGBA : Type := (Z * Z * Z * Z)%type.

Record Image (P : Type) : Type := mkImage {
  width : Z;
  height : Z;
  pixels : Z -> Z -> P
}.

Arguments mkImage {P} _ _ _.
Arguments width {P} _.
Arguments height {P} _.
Arguments pixels {P} _ _ _.

Inductive font : Type :=
| TrueType (name : string) (size : Z)
| DefaultFont.

Inductive effect : Type := Blur | Sharpen | Emboss | EdgeEnhance | Smooth.

(** What the rasteriser and the font engine decide: which pixels an
    ellipse, a polygon or a caption covers, how large a caption is, which
    fonts exist, and what a filter writes at a pixel. *)
Record Pillow : Type := mkPillow {
  ellipse_cover : Z * Z * Z * Z -> Z -> Z -> bool;
  polygon_cover : list (Z * Z) -> Z -> Z -> bool;
  text_cover : font -> string -> Z -> Z -> bool;
  text_bbox : font -> string -> Z * Z * Z * Z;
  truetype_ok : string -> Z -> bool;
  filter_pixel : effect -> Z -> Z -> (Z -> Z -> RGB) -> Z -> Z -> RGB
}.

Module PIL.

Local Open Scope Z_scope.

Definition size {P} (im : Image P) : Z * Z := (width im, height im).

Definition inside {P} (im : Image P) (x y : Z) : bool :=
  (0 <=? x) && (x <? width im) && (0 <=? y) && (y <? height im).

(** [Image.new(mode, (w, h), fill)]: a negative side is refused.  (A side
    past the range of a C [int] is refused too, with [OverflowError]; the
    model has no such bound.) *)
Definition new {P} (w h : Z) (fill : P) : result (Image P) :=
  if (w <? 0) || (h <? 0) then Raise ValueError
  else Ok (mkImage w h (fun _ _ => fill)).

(** An image without pixels. *)
Definition empty {P} (im : Image P) : bool :=
  (width im =? 0) || (height im =? 0).

(** [im.getpixel((x, y))]; [None] is [IndexError]. *)
Definition getpixel {P} (im : Image P) (x y : Z) : option P :=
  if inside im x y then Some (pixels im x y) else None.

(** Every drawing call writes one ink on the covered pixels of the
    canvas and leaves the others. *)
Definition paint {P} (cover : Z -> Z -> bool) (ink : P) (im : Image P)
  : Image P :=
  mkImage (width im) (height im)
    (fun x y => if inside im x y && cover x y then ink else pixels im x y).

Definition point_cover (p : Z * Z) (x y : Z) : bool :=
  (x =? fst p) && (y =? snd p).

(** [draw.point(p, fill)] *)
Definition point {P} (p : Z * Z) (ink : P) (im : Image P) : Image P :=
  paint (point_cover p) ink im.

(** The pixels Bresenham's walk visits in [n] steps from [(x, y)]; [major]
    tells whether [x] is the driving axis. *)
Fixpoint bresenham (n : nat) (major : bool) (x y e dx2 dy2 xs ys : Z)
  : list (Z * Z) :=
  match n with
  | O => []
  | S n' =>
      let bump := 0 <=? e in
      let e' := (if bump then e - (if major then dx2 else dy2) else e)
                + (if major then dy2 else dx2) in
      let x' := if major then x + xs else if bump then x + xs else x in
      let y' := if major then (if bump then y + ys else y) else y + ys in
      (x, y) :: bresenham n' major x' y' e' dx2 dy2 xs ys
  end.

Definition between (a b v : Z) : bool :=
  (Z.min a b <=? v) && (v <=? Z.max a b).

(** [draw.line([p0, p1], fill)] at width 1: both end points are drawn. *)
Definition line_cover (p0 p1 : Z * Z) (x y : Z) : bool :=
  let '(x0, y0) := p0 in
  let '(x1, y1) := p1 in
  let dx := Z.abs (x1 - x0) in
  let dy := Z.abs (y1 - y0) in
  let xs := if x1 - x0 <? 0 then -1 else 1 in
  let ys := if y1 - y0 <? 0 then -1 else 1 in
  if dx =? 0 then (x =? x0) && between y0 y1 y
  else if dy =? 0 then (y =? y0) && between x0 x1 x
  else
    point_cover p1 x y
    || existsb (fun q => point_cover q x y)
         (if dy <? dx
          then bresenham (Z.to_nat dx) true x0 y0 (2 * dy - dx)
                 (2 * dx) (2 * dy) xs ys
          else bresenham (Z.to_nat dy) false x0 y0 (2 * dx - dy)
                 (2 * dx) (2 * dy) xs ys).

Definition line {P} (p0 p1 : Z * Z) (ink : P) (im : Image P) : Image P :=
  paint (line_cover p0 p1) ink im.

Definition bad_box (box : Z * Z * Z * Z) : bool :=
  let '(x0, y0, x1, y1) := box in (x1 <? x0) || (y1 <? y0).

Definition rectangle_cover (box : Z * Z * Z * Z) (x y : Z) : bool :=
  let '(x0, y0, x1, y1) := box in
  (x0 <=? x) && (x <=? x1) && (y0 <=? y) && (y <=? y1).

(** [draw.rectangle(box, fill)] *)
Definition rectangle {P} (box : Z * Z * Z * Z) (ink : P) (im : Image P)
  : result (Image P) :=
  if bad_box box then Raise ValueError
  else Ok (paint (rectangle_cover box) ink im).

(** [draw.ellipse(box, fill)] *)
Definition ellipse {P} (pil : Pillow) (box : Z * Z * Z * Z) (ink : P)
    (im : Image P) : result (Image P) :=
  if bad_box box then Raise ValueError
  else Ok (paint (ellipse_cover pil box) ink im).

(** [draw.polygon(points, fill)] *)
Definition polygon {P} (pil : Pillow) (points : list (Z * Z)) (ink : P)
    (im : Image P) : Image P :=
  paint (polygon_cover pil points) ink im.

(** [draw.text(at, text, fill, font)] *)
Definition text {P} (pil : Pillow) (at_ : Z * Z) (txt : string) (ink : P)
    (f : font) (im : Image P) : Image P :=
  paint (fun x y => text_cover pil f txt (x - fst at_) (y - snd at_)) ink im.

(** [im.convert('RGBA')] and [im.convert('RGB')] *)
Definition to_rgba (im : Image RGB) : Image RGBA :=
  mkImage (width im) (height im)
    (fun x y => let '(r, g, b) := pixels im x y in (r, g, b, 255)).

Definition to_rgb (im : Image RGBA) : Image RGB :=
  mkImage (width im) (height im)
    (fun x y => let '(r, g, b, _) := pixels im x y in (r, g, b)).

(** Pillow's 8-bit source-over rule with 7 extra bits of precision. *)
Definition div255 (a : Z) : Z := Z.shiftr (Z.shiftr a 8 + a) 8.

Definition over (dst src : RGBA) : RGBA :=
  let '(dr, dg, db, da) := dst in
  let '(sr, sg, sb, sa) := src in
  if sa =? 0 then dst
  else
    let blend := da * (255 - sa) in
    let outa255 := sa * 255 + blend in
    let coef1 := sa * 255 * 255 * 128 / outa255 in
    let coef2 := 255 * 128 - coef1 in
    let ch s d := Z.shiftr (div255 (s * coef1 + d * coef2 + 128 * 128)) 7 in
    (ch sr dr, ch sg dg, ch sb db, div255 (outa255 + 128)).

(** [Image.alpha_composite(dst, src)] *)
Definition alpha_composite (dst src : Image RGBA) : result (Image RGBA) :=
  if (width dst =? width src) && (height dst =? height src)
  then Ok (mkImage (width dst) (height dst)
             (fun x y => over (pixels dst x y) (pixels src x y)))
  else Raise ValueError.

(** [im.filter(f)] *)
Definition filter (pil : Pillow) (f : effect) (im : Image RGB) : Image RGB :=
  mkImage (width im) (height im)
    (filter_pixel pil f (width im) (height im) (pixels im)).

(** [ImageColor.getrgb] on the two colour names and the [#rrggbb] form the
    program passes as a fill. *)
Definition getrgb (color : string) : result RGB :=
  if String.eqb color "white" then Ok (255, 255, 255)
  else if String.eqb color "black" then Ok (0, 0, 0)
  else if (String.length color =? 7)%nat && PyStr.startswith "#" color then
    match PyStr.int16 (PyStr.slice 1 3 color),
          PyStr.int16 (PyStr.slice 3 5 color),
          PyStr.int16 (PyStr.slice 5 7 color) with
    | Some r, Some g, Some b => Ok (r, g, b)
    | _, _, _ => Raise ValueError
    end
  else Raise ValueError.

End PIL.

(** ** The world: random source, clock, disk and console *)

(** One constructor for each [print] of the class, with the values its
    f-string shows. *)
Inductive Msg : Type :=
| MsgInitialized
| MsgNoApiKeys
| MsgEmptyPrompt
| MsgGenerating (prompt : string)
| MsgTheme (theme : string)
| MsgStyle (style : string)
| MsgSuccess
| MsgSaved (filepath : string)
| MsgThemeStyle (theme style : string)
| MsgError (e : exn)
| MsgBatchStart (total : nat)
| MsgProcessing (i total : nat) (head : string)
| MsgBatchComplete
| MsgSuccessful (successful total : nat).

Record World : Type := mkWorld {
  rand_src : nat -> nat;          (* the draws of the generator, in order *)
  rand_pos : nat;                 (* how many were consumed *)
  clock : nat -> string;          (* strftime of successive now() calls *)
  clock_pos : nat;
  writable : string -> bool;      (* whether that path can be written *)
  disk : list (string * Image RGB);
  stdout : list Msg
}.

Definition M (A : Type) : Type := World -> result A * World.

Definition ret {A} (a : A) : M A := fun w => (Ok a, w).

Definition bind {A B} (m : M A) (k : A -> M B) : M B :=
  fun w =>
    match m w with
    | (Ok a, w') => k a w'
    | (Raise e, w') => (Raise e, w')
    end.

Definition raise {A} (e : exn) : M A := fun w => (Raise e, w).

Definition lift {A} (r : result A) : M A := fun w => (r, w).

(** [try: body except Exception as e: handler(e)] *)
Definition try_except {A} (body : M A) (handler : exn -> M A) : M A :=
  fun w =>
    match body w with
    | (Ok a, w') => (Ok a, w')
    | (Raise e, w') => handler e w'
    end.

Declare Scope py_scope.
Delimit Scope py_scope with py.
Notation "x <- m ;; k" := (bind m (fun x => k))
  (at level 61, m at next level, right associativity) : py_scope.
Notation "m ;;; k" := (bind m (fun _ => k))
  (at level 61, right associativity) : py_scope.
Local Open Scope py_scope.

Definition print (m : Msg) : M unit :=
  fun w => (Ok tt, mkWorld (rand_src w) (rand_pos w) (clock w) (clock_pos w)
                     (writable w) (disk w) (stdout w ++ [m])).

(** One draw below [n] (for [0 < n]). *)
Definition randbelow (n : nat) : M nat :=
  fun w => (Ok (rand_src w (rand_pos w) mod n)%nat,
            mkWorld (rand_src w) (S (rand_pos w)) (clock w) (clock_pos w)
              (writable w) (disk w) (stdout w)).

Module random.

(** [random.choice(seq)] *)
Definition choice {A} (seq : list A) : M A :=
  match seq with
  | [] => raise IndexError
  | d :: _ => i <- randbelow (List.length seq) ;; ret (nth i seq d)
  end.

(** [random.randint(a, b)] *)
Definition randint (a b : Z) : M Z :=
  if (b <? a)%Z then raise ValueError
  else i <- randbelow (Z.to_nat (b - a + 1)) ;; ret (a + Z.of_nat i)%Z.

End random.

(** [datetime.now().strftime("%Y%m%d_%H%M%S")] *)
Definition now_strftime : M string :=
  fun w => (Ok (clock w (clock_pos w)),
            mkWorld (rand_src w) (rand_pos w) (clock w) (S (clock_pos w))
              (writable w) (disk w) (stdout w)).

(** [image.save(filepath)]: the file is opened, then the raster is
    encoded; an image without pixels cannot be written as PNG.  The disk is
    the list of the rasters saved, the latest first, so that a later save to
    a path hides the earlier ones from [saved]. *)
Definition save (image : Image RGB) (filepath : string) : M unit :=
  fun w =>
    if writable w filepath
    then
      if PIL.empty image then (Raise ValueError, w)
      else (Ok tt, mkWorld (rand_src w) (rand_pos w) (clock w) (clock_pos w)
                     (writable w) ((filepath, image) :: disk w) (stdout w))
    else (Raise OSError, w).

(** The image last saved at [filepath]. *)
Fixpoint saved (d : list (string * Image RGB)) (filepath : string)
  : option (Image RGB) :=
  match d with
  | [] => None
  | (p, im) :: d' => if String.eqb p filepath then Some im else saved d' filepath
  end.

(** [os.path.join(a, b)] on POSIX. *)
Definition ends_with_slash (a : string) : bool :=
  match get (String.length a - 1) a with
  | Some c => Ascii.eqb c "/"
  | None => false
  end.

Definition path_join (a b : string) : string :=
  if PyStr.startswith "/" b then b
  else if PyStr.is_empty a || ends_with_slash a then a ++ b
  else a ++ "/" ++ b.

(** [range(n)] *)
Definition range (n : Z) : list Z := map Z.of_nat (seq 0 (Z.to_nat n)).

(** [for x in xs: acc = body(x, acc)], in [result] and in [M]. *)
Fixpoint for_r {A S} (xs : list A) (body : A -> S -> result S) (s : S)
  : result S :=
  match xs with
  | [] => Ok s
  | x :: xs' => rbind (body x s) (for_r xs' body)
  end.

Fixpoint for_m {A S} (xs : list A) (body : A -> S -> M S) (s : S) : M S :=
  match xs with
  | [] => ret s
  | x :: xs' => s' <- body x s ;; for_m xs' body s'
  end.

(** ** Ordered dictionaries *)

Fixpoint dict_get {V} (d : list (string * V)) (k : string) : option V :=
  match d with
  | [] => None
  | (k', v) :: d' => if String.eqb k' k then Some v else dict_get d' k
  end.

(** [d[k] = v]: an existing key keeps its place, a new one goes last. *)
Fixpoint dict_set {V} (d : list (string * V)) (k : string) (v : V)
  : list (string * V) :=
  match d with
  | [] => [(k, v)]
  | (k', v') :: d' =>
      if String.eqb k' k then (k, v) :: d' else (k', v') :: dict_set d' k v
  end.

Definition keys {V} (d : list (string * V)) : list string := map fst d.

(** [max(items, key=...)] from a first candidate: a later item replaces the
    best one only when its key is strictly larger. *)
Fixpoint max_from {A} (key : A -> nat) (best : A) (items : list A) : A :=
  match items with
  | [] => best
  | x :: items' =>
      if (key best <? key x)%nat then max_from key x items'
      else max_from key best items'
  end.

Definition nth_r {A} (l : list A) (i : nat) : result A :=
  of_option IndexError (nth_error l i).

(** ** class LocalImageGenerator *)

Record LocalImageGenerator : Type := mkGenerator {
  output_dir : string;
  color_themes : list (string * list string)
}.

Definition catalog : list (string * list string) :=
  [ ("nature", ["#228B22"; "#32CD32"; "#90EE90"; "#006400"; "#8FBC8F"]);
    ("ocean", ["#006994"; "#4682B4"; "#87CEEB"; "#1E90FF"; "#00CED1"]);
    ("sunset", ["#FF6347"; "#FF8C00"; "#FFD700"; "#FF69B4"; "#DC143C"]);
    ("space", ["#191970"; "#4B0082"; "#8B008B"; "#9400D3"; "#000080"]);
    ("forest", ["#228B22"; "#006400"; "#8B4513"; "#2E8B57"; "#556B2F"]);
    ("city", ["#696969"; "#2F4F4F"; "#708090"; "#778899"; "#A9A9A9"]);
    ("fire", ["#FF4500"; "#FF6347"; "#FF8C00"; "#FFD700"; "#DC143C"]);
    ("ice", ["#B0E0E6"; "#87CEEB"; "#ADD8E6"; "#E0FFFF"; "#F0F8FF"]);
    ("magic", ["#9370DB"; "#BA55D3"; "#DA70D6"; "#EE82EE"; "#DDA0DD"]);
    ("retro", ["#FF1493"; "#00FFFF"; "#FFFF00"; "#FF69B4"; "#00FF00"]) ].

(** [os.makedirs(path, exist_ok=True)]: the empty path is refused, and
    so is a directory the file system does not let one make. *)
Definition makedirs (path : string) : M unit :=
  fun w =>
    if PyStr.is_empty path || negb (writable w path)
    then (Raise OSError, w)
    else (Ok tt, w).

(** [LocalImageGenerator(output_dir)] *)
Definition init (dir : string) : M LocalImageGenerator :=
  makedirs dir ;;;
  print MsgInitialized ;;;
  print MsgNoApiKeys ;;;
  ret (mkGenerator dir catalog).

Definition theme_keywords : list (string * list string) :=
  [ ("nature", ["tree"; "grass"; "plant"; "garden"; "nature"; "leaf"]);
    ("ocean", ["ocean"; "sea"; "water"; "wave"; "beach"; "blue"]);
    ("sunset", ["sunset"; "dawn"; "orange"; "warm"; "golden"]);
    ("space", ["space"; "star"; "galaxy"; "cosmic"; "universe"; "nebula"]);
    ("forest", ["forest"; "wood"; "jungle"; "tree"; "green"]);
    ("city", ["city"; "urban"; "building"; "street"; "skyscraper"]);
    ("fire", ["fire"; "flame"; "hot"; "red"; "burning"]);
    ("ice", ["ice"; "cold"; "frozen"; "winter"; "snow"]);
    ("magic", ["magic"; "mystical"; "fantasy"; "enchanted"; "wizard"]);
    ("retro", ["retro"; "neon"; "cyberpunk"; "80s"; "synthwave"]) ].

(** [sum(1 for keyword in keywords if keyword in prompt_lower)] *)
Definition score (keywords : list string) (prompt_lower : string) : nat :=
  List.length (List.filter (fun keyword => PyStr.contains keyword prompt_lower)
                 keywords).

(** The loop that fills [theme_scores]. *)
Definition count_scores (table : list (string * list string))
    (prompt_lower : string) : list (string * nat) :=
  fold_left
    (fun theme_scores entry =>
       let s := score (snd entry) prompt_lower in
       if (0 <? s)%nat then dict_set theme_scores (fst entry) s
       else theme_scores)
    table [].

Definition detect_theme (self : LocalImageGenerator) (prompt : string)
  : M string :=
  let prompt_lower := PyStr.lower prompt in
  match count_scores theme_keywords prompt_lower with
  | [] => random.choice (keys (color_themes self))
  | first :: others => ret (fst (max_from snd first others))
  end.

(** The three [int(color[i:j], 16)] of a hex colour. *)
Definition hex_channels (color : string) : result RGB :=
  rbind (of_option ValueError (PyStr.int16 (PyStr.slice 1 3 color))) (fun r =>
  rbind (of_option ValueError (PyStr.int16 (PyStr.slice 3 5 color))) (fun g =>
  rbind (of_option ValueError (PyStr.int16 (PyStr.slice 5 7 color))) (fun b =>
  Ok (r, g, b)))).

(** [int(c1 + (c2 - c1) * ratio)] *)
Definition blend_channel (c1 c2 : Z) (ratio : Q) : Z :=
  PyFloat.to_int
    (PyFloat.add (PyFloat.of_int c1)
       (PyFloat.mul (PyFloat.of_int (c2 - c1)) ratio)).

Definition blend_colors (color1 color2 : string) (ratio : Q) : result RGB :=
  rbind (hex_channels color1) (fun '(r1, g1, b1) =>
  rbind (hex_channels color2) (fun '(r2, g2, b2) =>
  Ok (blend_channel r1 r2 ratio,
      blend_channel g1 g2 ratio,
      blend_channel b1 b2 ratio))).

(** [self.blend_colors(colors[0], colors[1], ratio)] *)
Definition blend_first_two (colors : list string) (ratio : Q) : result RGB :=
  rbind (nth_r colors 0) (fun c0 =>
  rbind (nth_r colors 1) (fun c1 =>
  blend_colors c0 c1 ratio)).

(** [math.sqrt(n)] for a Python [int]. *)
Definition sqrt_int (n : Z) : result Q := PyFloat.sqrt (PyFloat.of_int n).

(** The body of [generate_gradient_background] once the kind is drawn. *)
Definition gradient_of (gradient_type : string) (width height : Z)
    (colors : list string) (image : Image RGB) : result (Image RGB) :=
  if String.eqb gradient_type "horizontal" then
    for_r (range width) (fun x image =>
      rbind (PyFloat.int_truediv x width) (fun ratio =>
      rbind (blend_first_two colors ratio) (fun color =>
      Ok (PIL.line (x, 0%Z) (x, height) color image)))) image
  else if String.eqb gradient_type "vertical" then
    for_r (range height) (fun y image =>
      rbind (PyFloat.int_truediv y height) (fun ratio =>
      rbind (blend_first_two colors ratio) (fun color =>
      Ok (PIL.line (0%Z, y) (width, y) color image)))) image
  else if String.eqb gradient_type "diagonal" then
    for_r (range height) (fun y image =>
      for_r (range width) (fun x image =>
        rbind (PyFloat.int_truediv (x + y) (width + height)) (fun ratio =>
        rbind (blend_first_two colors ratio) (fun color =>
        Ok (PIL.point (x, y) color image)))) image) image
  else if String.eqb gradient_type "radial" then
    let center_x := (width / 2)%Z in
    let center_y := (height / 2)%Z in
    rbind (sqrt_int (center_x ^ 2 + center_y ^ 2)) (fun max_distance =>
    for_r (range height) (fun y image =>
      for_r (range width) (fun x image =>
        rbind (sqrt_int ((x - center_x) ^ 2 + (y - center_y) ^ 2))
          (fun distance =>
        rbind (PyFloat.div distance max_distance) (fun q =>
        let ratio := PyFloat.min q 1 in
        rbind (blend_first_two colors ratio) (fun color =>
        Ok (PIL.point (x, y) color image))))) image) image)
  else Ok image.

Definition gradient_kinds : list string :=
  ["horizontal"; "vertical"; "diagonal"; "radial"].

Definition generate_gradient_background (width height : Z)
    (colors : list string) : M (Image RGB) :=
  image <- lift (PIL.new width height (0, 0, 0)%Z) ;;
  gradient_type <- random.choice gradient_kinds ;;
  lift (gradient_of gradient_type width height colors image).

Section Generator.

Variable pil : Pillow.

Definition pattern_kinds : list string :=
  ["circles"; "rectangles"; "triangles"; "lines"].

(** What one round of the loop of [add_geometric_patterns] draws on its
    transparent overlay. *)
Definition draw_pattern (pattern_type : string) (width height : Z)
    (color : string) (alpha : Z) (overlay : Image RGBA) : M (Image RGBA) :=
  if String.eqb pattern_type "circles" then
    x <- random.randint 0 width ;;
    y <- random.randint 0 height ;;
    radius <- random.randint 20 100 ;;
    rgb <- lift (hex_channels color) ;;
    let '(r, g, b) := rgb in
    lift (PIL.ellipse pil (x - radius, y - radius, x + radius, y + radius)%Z
            (r, g, b, alpha) overlay)
  else if String.eqb pattern_type "rectangles" then
    x1 <- random.randint 0 (width / 2) ;;
    y1 <- random.randint 0 (height / 2) ;;
    x2 <- random.randint x1 width ;;
    y2 <- random.randint y1 height ;;
    rgb <- lift (hex_channels color) ;;
    let '(r, g, b) := rgb in
    lift (PIL.rectangle (x1, y1, x2, y2) (r, g, b, alpha) overlay)
  else ret overlay.

Definition pattern_round (pattern_type : string) (width height : Z)
    (colors : list string) (image : Image RGB) : M (Image RGB) :=
  color <- random.choice colors ;;
  alpha <- random.randint 50 150 ;;
  overlay <- lift (PIL.new width height (0, 0, 0, 0)%Z) ;;
  overlay <- draw_pattern pattern_type width height color alpha overlay ;;
  composed <- lift (PIL.alpha_composite (PIL.to_rgba image) overlay) ;;
  ret (PIL.to_rgb composed).

Definition add_geometric_patterns (image : Image RGB) (colors : list string)
  : M (Image RGB) :=
  let width := width image in
  let height := height image in
  pattern_type <- random.choice pattern_kinds ;;
  num_shapes <- random.randint 5 15 ;;
  for_m (range num_shapes)
    (fun _ image => pattern_round pattern_type width height colors image)
    image.

(** The font loop: the first size at which [arial.ttf] loads, else the
    built-in font. *)
Definition load_font : font :=
  match List.find (truetype_ok pil "arial.ttf") [60; 48; 36; 24]%Z with
  | Some font_size => TrueType "arial.ttf" font_size
  | None => DefaultFont
  end.

(** [" ".join(prompt.split()[:3]).upper()] *)
Definition display_text (prompt : string) : string :=
  let words := firstn 3 (PyStr.split prompt) in
  PyStr.upper (PyStr.join " " words).

Definition text_positions (width height text_width text_height : Z)
  : list (Z * Z) :=
  [ (width / 2 - text_width / 2, 50);
    (width / 2 - text_width / 2, height - text_height - 50);
    (50, height / 2 - text_height / 2);
    (width - text_width - 50, height / 2 - text_height / 2) ]%Z.

Definition add_text_overlay (image : Image RGB) (prompt : string)
  : M (Image RGB) :=
  let font := load_font in
  let display_text := display_text prompt in
  let '(bx0, by0, bx1, by1) := text_bbox pil font display_text in
  let text_width := (bx1 - bx0)%Z in
  let text_height := (by1 - by0)%Z in
  xy <- random.choice
          (text_positions (width image) (height image) text_width text_height) ;;
  let '(x, y) := xy in
  let shadow_offset := 3%Z in
  black <- lift (PIL.getrgb "black") ;;
  let image := PIL.text pil (x + shadow_offset, y + shadow_offset)%Z
                 display_text black font image in
  white <- lift (PIL.getrgb "white") ;;
  ret (PIL.text pil (x, y) display_text white font image).

Definition effects : list effect :=
  [Blur; Sharpen; Emboss; EdgeEnhance; Smooth].

Definition apply_artistic_effects (image : Image RGB) : M (Image RGB) :=
  chosen_effect <- random.choice effects ;;
  ret (PIL.filter pil chosen_effect image).

Definition random_box (width height : Z) : M (Z * Z * Z * Z) :=
  x1 <- random.randint 0 (width / 2) ;;
  y1 <- random.randint 0 (height / 2) ;;
  x2 <- random.randint x1 width ;;
  y2 <- random.randint y1 height ;;
  ret (x1, y1, x2, y2).

Definition abstract_shape (width height : Z) (colors : list string)
    (image : Image RGB) : M (Image RGB) :=
  shape_type <- random.choice ["ellipse"; "rectangle"; "polygon"] ;;
  color <- random.choice colors ;;
  if String.eqb shape_type "ellipse" then
    box <- random_box width height ;;
    ink <- lift (PIL.getrgb color) ;;
    lift (PIL.ellipse pil box ink image)
  else if String.eqb shape_type "rectangle" then
    box <- random_box width height ;;
    ink <- lift (PIL.getrgb color) ;;
    lift (PIL.rectangle box ink image)
  else if String.eqb shape_type "polygon" then
    num_points <- random.randint 3 6 ;;
    points <- for_m (range num_points)
                (fun _ points =>
                   x <- random.randint 0 width ;;
                   y <- random.randint 0 height ;;
                   ret (points ++ [(x, y)]))
                [] ;;
    ink <- lift (PIL.getrgb color) ;;
    ret (PIL.polygon pil points ink image)
  else ret image.

Definition create_abstract_art (width height : Z) (colors : list string)
  : M (Image RGB) :=
  white <- lift (PIL.getrgb "white") ;;
  image <- lift (PIL.new width height white) ;;
  num_shapes <- random.randint 10 25 ;;
  for_m (range num_shapes)
    (fun _ image => abstract_shape width height colors image) image.

(** The [if / elif] chain on [style]; [None] leaves [image] unbound. *)
Definition base_image (style : string) (width height : Z)
    (colors : list string) : M (option (Image RGB)) :=
  if String.eqb style "gradient" then
    image <- generate_gradient_background width height (firstn 2 colors) ;;
    ret (Some image)
  else if String.eqb style "abstract" then
    image <- create_abstract_art width height colors ;;
    ret (Some image)
  else if String.eqb style "geometric" then
    bg_color <- lift (nth_r colors 0) ;;
    rgb <- lift (hex_channels bg_color) ;;
    image <- lift (PIL.new width height rgb) ;;
    image <- add_geometric_patterns image (tl colors) ;;
    ret (Some image)
  else ret None.

(** The statements under [try:] up to and including [image.save]. *)
Definition render_and_save (self : LocalImageGenerator) (prompt : string)
    (width height : Z) (style theme : string) (colors : list string)
  : M (option string) :=
  bound <- base_image style width height colors ;;
  image <- match bound with
           | Some image => ret image
           | None => raise UnboundLocalError
           end ;;
  image <- add_text_overlay image prompt ;;
  image <- apply_artistic_effects image ;;
  timestamp <- now_strftime ;;
  let filename :=
    ("local_generated_" ++ style ++ "_" ++ timestamp ++ ".png")%string in
  let filepath := path_join (output_dir self) filename in
  save image filepath ;;;
  print MsgSuccess ;;;
  print (MsgSaved filepath) ;;;
  print (MsgThemeStyle theme style) ;;;
  ret (Some filepath).

Definition generate_image (self : LocalImageGenerator) (prompt : string)
    (width height : Z) (style : string) : M (option string) :=
  if PyStr.is_empty prompt || PyStr.is_empty (PyStr.strip prompt) then
    print MsgEmptyPrompt ;;; ret None
  else
    let prompt := PyStr.strip prompt in
    print (MsgGenerating prompt) ;;;
    theme <- detect_theme self prompt ;;
    colors <- lift (of_option KeyError (dict_get (color_themes self) theme)) ;;
    print (MsgTheme theme) ;;;
    style <- (if String.eqb style "auto"
              then random.choice ["gradient"; "abstract"; "geometric"]
              else ret style) ;;
    print (MsgStyle style) ;;;
    try_except
      (render_and_save self prompt width height style theme colors)
      (fun e => print (MsgError e) ;;; ret None).

(** The loop of [batch_generate]: [i] counts from 1. *)
Fixpoint batch_loop (self : LocalImageGenerator) (width height : Z)
    (style : string) (total i : nat) (prompts : list string)
    (results : list (option string)) : M (list (option string)) :=
  match prompts with
  | [] => ret results
  | prompt :: prompts' =>
      print (MsgProcessing i total (PyStr.slice 0 50 prompt)) ;;;
      result <- generate_image self prompt width height style ;;
      batch_loop self width height style total (S i) prompts'
        (results ++ [result])
  end.

Definition is_some {A} (o : option A) : bool :=
  match o with Some _ => true | None => false end.

Definition batch_generate (self : LocalImageGenerator)
    (prompts : list string) (width height : Z) (style : string)
  : M (list (option string)) :=
  let total := List.length prompts in
  print (MsgBatchStart total) ;;;
  results <- batch_loop self width height style total 1 prompts [] ;;
  let successful := List.length (List.filter is_some results) in
  print MsgBatchComplete ;;;
  print (MsgSuccessful successful total) ;;;
  ret results.

End Generator.

(** ** Vocabulary of the specification *)

(** [kw] occurs in [s] as a substring. *)
Definition occurs (kw s : string) : Prop :=
  exists a b : string, s = (a ++ kw ++ b)%string.

(** The count of every theme of the table, in catalog order. *)
Definition all_scores (table : list (string * list string))
    (prompt_lower : string) : list (string * nat) :=
  map (fun entry => (fst entry, score (snd entry) prompt_lower)) table.

(** [t] has the maximal count and is the first theme to have it. *)
Definition first_max (scores : list (string * nat)) (t : string) : Prop :=
  exists l1 n l2,
    scores = l1 ++ (t, n) :: l2
    /\ (forall e, In e l1 -> (snd e < n)%nat)
    /\ (forall e, In e l2 -> (snd e <= n)%nat).

(** The prompt has words, and each is a keyword of [theme]. *)
Definition only_keywords_of (theme prompt : string) : Prop :=
  exists kws,
    In (theme, kws) theme_keywords
    /\ PyStr.split prompt <> []
    /\ forall w, In w (PyStr.split prompt) -> In w kws.

(** No keyword of a theme other than [theme] occurs in the text. *)
Definition no_foreign_keyword (theme prompt_lower : string) : Prop :=
  forall theme' kws kw,
    In (theme', kws) theme_keywords -> theme' <> theme -> In kw kws ->
    ~ occurs kw prompt_lower.

(** Some keyword of the table occurs in the text. *)
Definition some_keyword (prompt_lower : string) : Prop :=
  exists theme kws kw,
    In (theme, kws) theme_keywords /\ In kw kws /\ occurs kw prompt_lower.

(** A fixed environment for the worked examples: boxes for ellipses, no
    TrueType font, captions eight pixels a letter, and a filter that copies. *)
Definition demo_pil : Pillow :=
  mkPillow (fun box x y => PIL.rectangle_cover box x y) (fun _ _ _ => false)
    (fun _ _ _ _ => false)
    (fun _ s => (0, 0, 8 * Z.of_nat (String.length s), 10)%Z)
    (fun _ _ => false) (fun _ _ _ px x y => px x y).

Definition demo_world (draws : nat -> nat) : World :=
  mkWorld draws 0 (fun _ => "20250704_120000") 0 (fun _ => true) [] [].

Definition demo_generator : LocalImageGenerator :=
  mkGenerator "generated_images" catalog.

(** Claim C1 as it is worded, at one theme, prompt and world. *)
Definition keywords_decide (self : LocalImageGenerator) (theme prompt : string)
    (w : World) : Prop :=
  only_keywords_of theme prompt ->
  fst (detect_theme self prompt w) = Ok theme.

(** Claim C7 as it is worded, at one prompt and world. *)
Definition picks_first_max (self : LocalImageGenerator) (prompt : string)
    (w : World) : Prop :=
  exists t,
    fst (detect_theme self prompt w) = Ok t
    /\ first_max (all_scores theme_keywords (PyStr.lower prompt)) t.

(** A decision procedure for [no_foreign_keyword]. *)
Definition foreign_free (theme prompt_lower : string) : bool :=
  forallb
    (fun entry =>
       String.eqb (fst entry) theme
       || forallb (fun kw => negb (PyStr.contains kw prompt_lower)) (snd entry))
    theme_keywords.

(** A valid six-digit hex colour: [#] and six hexadecimal digits. *)
Definition is_hex (c : ascii) : bool :=
  match PyStr.hex_digit c with Some _ => true | None => false end.

Definition valid_hex_color (color : string) : bool :=
  (String.length color =? 7)%nat
  && PyStr.startswith "#" color
  && PyStr.all_chars is_hex (PyStr.slice 1 7 color).

(** Every channel of [c] lies between the channels of [a] and [b]. *)
Definition channels_between (a b c : RGB) : Prop :=
  let '(r1, g1, b1) := a in
  let '(r2, g2, b2) := b in
  let '(r, g, b) := c in
  (Z.min r1 r2 <= r <= Z.max r1 r2
   /\ Z.min g1 g2 <= g <= Z.max g1 g2
   /\ Z.min b1 b2 <= b <= Z.max b1 b2)%Z.

(** The value of a hexadecimal digit is its place among the sixteen
    digits, in either case. *)
Fixpoint place (c : ascii) (digits : string) (i : Z) : option Z :=
  match digits with
  | EmptyString => None
  | String d digits' =>
      if Ascii.eqb c d then Some i else place c digits' (i + 1)%Z
  end.

Definition hex_value (c : ascii) : option Z :=
  match place c "0123456789abcdef" 0 with
  | Some v => Some v
  | None => place c "ABCDEF" 10
  end.

(** Two hexadecimal digits read as one number. *)
Definition byte_of_hex (hi lo : ascii) : option Z :=
  match hex_value hi, hex_value lo with
  | Some h, Some l => Some (16 * h + l)%Z
  | _, _ => None
  end.

(** The RGB triple a colour [#rrggbb] names. *)
Definition rgb_of_hex (color : string) : option RGB :=
  match color with
  | String h (String r1 (String r2 (String g1 (String g2
      (String b1 (String b2 EmptyString)))))) =>
      if Ascii.eqb h "#" then
        match byte_of_hex r1 r2, byte_of_hex g1 g2, byte_of_hex b1 b2 with
        | Some r, Some g, Some b => Some (r, g, b)
        | _, _, _ => None
        end
      else None
  | _ => None
  end.

(** Text within the alphabet of the model: every character is ASCII. *)
Definition ascii_text (s : string) : bool :=
  PyStr.all_chars (fun c => (PyStr.code c <? 128)%nat) s.

(** Sizes within [Image.MAX_IMAGE_PIXELS], the number of pixels Pillow
    itself takes for safe; they are far inside the range of a C [int]. *)
Definition MAX_IMAGE_PIXELS : Z := 89478485.

Definition modest_size (w h : Z) : Prop :=
  (w <= MAX_IMAGE_PIXELS /\ h <= MAX_IMAGE_PIXELS
   /\ w * h <= MAX_IMAGE_PIXELS)%Z.


(** [ws] are the whitespace-separated words of a text: blanks, a word, and
    either the end of the text or a whitespace character and the rest. *)
Definition blank (s : string) : Prop :=
  PyStr.all_chars PyStr.isspace s = true.

Definition is_word (w : string) : Prop :=
  w <> EmptyString
  /\ PyStr.all_chars (fun c => negb (PyStr.isspace c)) w = true.

Inductive words_of : string -> list string -> Prop :=
| words_none (s : string) :
    blank s -> words_of s []
| words_last (lead w : string) :
    blank lead -> is_word w -> words_of (lead ++ w) [w]
| words_next (lead w : string) (c : ascii) (rest : string) (ws : list string) :
    blank lead -> is_word w -> PyStr.isspace c = true ->
    words_of rest ws ->
    words_of (lead ++ w ++ String c rest) (w :: ws).

(** The world after one more line on the console. *)
Definition logged (w : World) (m : Msg) : World :=
  mkWorld (rand_src w) (rand_pos w) (clock w) (clock_pos w) (writable w)
    (disk w) (stdout w ++ [m]).

(** Two images a viewer cannot tell apart. *)
Definition same_image {P} (a b : Image P) : Prop :=
  width a = width b /\ height a = height b
  /\ forall x y, PIL.getpixel a x y = PIL.getpixel b x y.

(** A stage that keeps the size of the raster it is given. *)
Definition preserves_size (stage : Image RGB -> M (Image RGB)) : Prop :=
  forall image w image' w',
    stage image w = (Ok image', w') -> PIL.size image' = PIL.size image.


(** A pattern kind for which [draw_pattern] has no branch. *)
Definition undrawn (kind : string) : Prop :=
  String.eqb kind "circles" = false /\ String.eqb kind "rectangles" = false.

(** A canvas of one colour. *)
Definition solid (w h : Z) (c : RGB) : Image RGB := mkImage w h (fun _ _ => c).

(** A theme whose count is not zero. *)
Definition positive (e : string * nat) : bool := (0 <? snd e)%nat.

(** [|q| < 2 ^ 53]: the range in which binary64 holds every integer. *)
Definition small (q : Q) : Prop :=
  (- 2 ^ 53 * Zpos (Qden q) < Qnum q < 2 ^ 53 * Zpos (Qden q))%Z.

(** The ratio the specification gives for a pixel of each gradient kind. *)
Definition gradient_ratio (kind : string) (w h x y : Z) : result Q :=
  if String.eqb kind "horizontal" then PyFloat.int_truediv x w
  else if String.eqb kind "vertical" then PyFloat.int_truediv y h
  else if String.eqb kind "diagonal" then PyFloat.int_truediv (x + y) (w + h)
  else
    rbind (sqrt_int ((w / 2) ^ 2 + (h / 2) ^ 2)) (fun max_distance =>
    rbind (sqrt_int ((x - w / 2) ^ 2 + (y - h / 2) ^ 2)) (fun distance =>
    rbind (PyFloat.div distance max_distance) (fun q =>
    Ok (PyFloat.min q 1)))).

(** The coordinates a doubly nested loop visits, rows outermost. *)
Definition row_major (w h : Z) : list (Z * Z) :=
  flat_map (fun y => map (fun x => (x, y)) (range w)) (range h).

(** One shape laid over an image: its colour comes from [colors], its alpha
    lies between 50 and 150, it is an ellipse or a rectangle, and it is
    composited over the image by the source-over rule. *)
Definition composite_shape (cover : Z -> Z -> bool) (ink : RGBA)
    (im : Image RGB) : Image RGB :=
  PIL.to_rgb
    (mkImage (width im) (height im)
       (fun x y =>
          PIL.over (pixels (PIL.to_rgba im) x y)
            (if PIL.inside im x y && cover x y then ink
             else (0, 0, 0, 0)%Z))).

Inductive one_shape (pil : Pillow) (colors : list string)
  : Image RGB -> Image RGB -> Prop :=
| shape_over (im : Image RGB) (color : string) (r g b alpha : Z)
    (cover : Z -> Z -> bool) :
    In color colors ->
    hex_channels color = Ok (r, g, b) ->
    (50 <= alpha <= 150)%Z ->
    (exists box, cover = ellipse_cover pil box)
    \/ (exists box, cover = PIL.rectangle_cover box) ->
    one_shape pil colors im (composite_shape cover (r, g, b, alpha) im).

(** [n] shapes laid one after the other, each over the result of the
    earlier ones. *)
Inductive overlaid (pil : Pillow) (colors : list string)
  : nat -> Image RGB -> Image RGB -> Prop :=
| overlaid_none (im : Image RGB) : overlaid pil colors 0 im im
| overlaid_more (n : nat) (im im1 im2 : Image RGB) :
    one_shape pil colors im im1 ->
    overlaid pil colors n im1 im2 ->
    overlaid pil colors (S n) im im2.

(** A pattern kind with a drawing rule. *)
Definition drawn (kind : string) : Prop :=
  kind = "circles" \/ kind = "rectangles".

(** A computation keeps [R] when every run of it, whether it returns or
    raises, takes a world to an [R]-related one. *)
Definition keeps {A} (R : World -> World -> Prop) (m : M A) : Prop :=
  forall w r w', m w = (r, w') -> R w w'.


(** The disk accepts the same paths as before. *)
Definition same_fs (w w' : World) : Prop := writable w' = writable w.

(** The world after one draw. *)
Definition drawn_once (w : World) : World :=
  mkWorld (rand_src w) (S (rand_pos w)) (clock w) (clock_pos w) (writable w)
    (disk w) (stdout w).

(** No keyword of the table occurs in the text (decided by search). *)
Definition keyword_free (prompt_lower : string) : bool :=
  forallb
    (fun entry =>
       forallb (fun kw => negb (PyStr.contains kw prompt_lower)) (snd entry))
    theme_keywords.



(** Where each gradient kind starts: the first column, the first row, the
    top-left corner, the centre. *)
Definition gradient_start (kind : string) (w h x y : Z) : Prop :=
  if String.eqb kind "horizontal" then x = 0%Z
  else if String.eqb kind "vertical" then y = 0%Z
  else if String.eqb kind "diagonal" then x = 0%Z /\ y = 0%Z
  else x = (w / 2)%Z /\ y = (h / 2)%Z.

(** The colours abstract art may show: white, or a colour of the palette. *)
Definition palette_ink (colors : list string) (rgb : RGB) : Prop :=
  rgb = (255, 255, 255)%Z
  \/ exists color, In color colors /\ rgb_of_hex color = Some rgb.

Definition painted_from (colors : list string) (image : Image RGB) : Prop :=
  forall x y, palette_ink colors (pixels image x y).



(** ** Facts about text *)


Lemma string_app_assoc (a b c : string) :
  ((a ++ b) ++ c = a ++ (b ++ c))%string.
Proof. induction a as [|x a IH]; simpl; [reflexivity | now rewrite IH]. Qed.

Lemma string_app_nil_r (a : string) : (a ++ "")%string = a.
Proof. induction a as [|x a IH]; simpl; [reflexivity | now rewrite IH]. Qed.

Lemma startswith_app (kw s : string) :
  PyStr.startswith kw s = true <-> exists b, s = (kw ++ b)%string.
Proof.
  revert s; induction kw as [|c kw IH]; intros s; simpl.
  - split; [intros _; now exists s | reflexivity].
  - destruct s as [|d s].
    + split; [discriminate | intros [b Hb]; discriminate].
    + rewrite andb_true_iff, Ascii.eqb_eq, IH. split.
      * intros [-> [b ->]]. now exists b.
      * intros [b Hb]. injection Hb as -> ->. split; [reflexivity | now exists b].
Qed.

Lemma contains_occurs (kw s : string) :
  PyStr.contains kw s = true <-> occurs kw s.
Proof.
  induction s as [|c s IH].
  - simpl. rewrite orb_false_r, startswith_app. split.
    + intros [b Hb]. exists "", b. exact Hb.
    + intros [a [b Hab]]. destruct a; simpl in Hab; [now exists b | discriminate].
  - cbn [PyStr.contains]. rewrite orb_true_iff, IH, startswith_app. split.
    + intros [[b Hb] | [a [b Hab]]].
      * exists "", b. exact Hb.
      * exists (String c a), b. simpl. now rewrite Hab.
    + intros [a [b Hab]]. destruct a as [|d a]; simpl in Hab.
      * left. now exists b.
      * right. injection Hab as _ Hs. now exists a, b.
Qed.

Lemma smap_app (f : ascii -> ascii) (a b : string) :
  PyStr.smap f (a ++ b) = (PyStr.smap f a ++ PyStr.smap f b)%string.
Proof. induction a as [|x a IH]; simpl; [reflexivity | now rewrite IH]. Qed.

Lemma occurs_lower (kw s : string) :
  occurs kw s -> occurs (PyStr.lower kw) (PyStr.lower s).
Proof.
  intros [a [b ->]]. exists (PyStr.lower a), (PyStr.lower b).
  unfold PyStr.lower. now rewrite !smap_app.
Qed.

(** Every word that the scanner emits is a piece of the text. *)
Lemma split_from_occurs (s cur w : string) :
  In w (PyStr.split_from cur s) -> occurs w (cur ++ s).
Proof.
  revert cur; induction s as [|c s IH]; intros cur; simpl.
  - unfold PyStr.flush. destruct (PyStr.is_empty cur); simpl; [tauto|].
    intros [<-|[]]. exists "", "". simpl. now rewrite !string_app_nil_r.
  - destruct (PyStr.isspace c).
    + rewrite in_app_iff. intros [Hw | Hw].
      * unfold PyStr.flush in Hw. destruct (PyStr.is_empty cur); simpl in Hw; [tauto|].
        destruct Hw as [<-|[]]. exists "", (String c s). reflexivity.
      * apply IH in Hw. destruct Hw as [a [b Hab]]. simpl in Hab.
        exists (cur ++ String c a)%string, b.
        rewrite string_app_assoc. simpl. now rewrite Hab.
    + intros Hw. apply IH in Hw. destruct Hw as [a [b Hab]].
      exists a, b. rewrite <- Hab, string_app_assoc. reflexivity.
Qed.

Lemma split_occurs (s w : string) : In w (PyStr.split s) -> occurs w s.
Proof. intros H. now apply split_from_occurs in H. Qed.

Lemma lstrip_blank (s : string) :
  PyStr.all_chars PyStr.isspace s = true -> PyStr.lstrip s = "".
Proof.
  induction s as [|c s IH]; simpl; [reflexivity|].
  rewrite andb_true_iff. intros [-> Hs]. auto.
Qed.

Lemma strip_blank (s : string) :
  PyStr.all_chars PyStr.isspace s = true -> PyStr.strip s = "".
Proof. intros H. unfold PyStr.strip. now rewrite lstrip_blank. Qed.

(** ** Theme detection *)

Lemma dict_set_fresh {V} (d : list (string * V)) (k : string) (v : V) :
  ~ In k (keys d) -> dict_set d k v = d ++ [(k, v)].
Proof.
  induction d as [|[k' v'] d IH]; simpl; intros Hk; [reflexivity|].
  destruct (String.eqb_spec k' k) as [->|_]; [tauto|].
  now rewrite IH by tauto.
Qed.

Lemma count_scores_from (table : list (string * list string)) (p : string) :
  NoDup (keys table) ->
  forall acc,
    (forall k, In k (keys acc) -> ~ In k (keys table)) ->
    fold_left
      (fun theme_scores entry =>
         let s := score (snd entry) p in
         if (0 <? s)%nat then dict_set theme_scores (fst entry) s
         else theme_scores)
      table acc
    = acc ++ List.filter positive (all_scores table p).
Proof.
  induction table as [|[t kws] table IH]; intros Hnd acc Hacc; simpl.
  - now rewrite app_nil_r.
  - inversion Hnd as [|? ? Ht Hnd']; subst.
    unfold positive at 1; simpl.
    destruct (0 <? score kws p)%nat eqn:Hs.
    + rewrite dict_set_fresh.
      * rewrite IH; [now rewrite <- app_assoc | assumption |].
        intros k Hk. unfold keys in Hk. rewrite map_app, in_app_iff in Hk.
        destruct Hk as [Hk | [<- | []]]; [|exact Ht].
        intros Hin. apply (Hacc k Hk). now right.
      * intros Hin. apply (Hacc t Hin). now left.
    + apply IH; [assumption|].
      intros k Hk Hin. apply (Hacc k Hk). now right.
Qed.

Lemma theme_keywords_nodup : NoDup (keys theme_keywords).
Proof.
  apply (NoDup_count_occ' string_dec). intros x Hx.
  repeat (destruct Hx as [<- | Hx]; [reflexivity|]). destruct Hx.
Qed.

Lemma count_scores_filter (p : string) :
  count_scores theme_keywords p
  = List.filter positive (all_scores theme_keywords p).
Proof.
  exact (count_scores_from theme_keywords p theme_keywords_nodup []
           (fun k H => match H with end)).
Qed.

(** [max_from] keeps the first item among those with the largest key. *)
Lemma max_from_first {A} (key : A -> nat) (items : list A) :
  forall best l1 mid,
    (forall y, In y l1 -> (key y < key best)%nat) ->
    (forall y, In y mid -> (key y <= key best)%nat) ->
    exists l1' l2',
      l1 ++ best :: mid ++ items = l1' ++ max_from key best items :: l2'
      /\ (forall y, In y l1' -> (key y < key (max_from key best items))%nat)
      /\ (forall y, In y l2' -> (key y <= key (max_from key best items))%nat).
Proof.
  induction items as [|x items IH]; intros best l1 mid H1 Hmid; simpl.
  - exists l1, mid. rewrite app_nil_r. auto.
  - destruct (Nat.ltb_spec (key best) (key x)) as [Hlt | Hge].
    + destruct (IH x (l1 ++ best :: mid) []) as (l1' & l2' & E & P1 & P2).
      * intros y Hy. rewrite in_app_iff in Hy. destruct Hy as [Hy | [<- | Hy]].
        -- specialize (H1 y Hy). lia.
        -- exact Hlt.
        -- specialize (Hmid y Hy). lia.
      * intros y [].
      * exists l1', l2'. split; [|auto].
        rewrite <- E. simpl. now rewrite <- app_assoc.
    + destruct (IH best l1 (mid ++ [x])) as (l1' & l2' & E & P1 & P2).
      * exact H1.
      * intros y Hy. rewrite in_app_iff in Hy. destruct Hy as [Hy | [<- | []]].
        -- auto.
        -- exact Hge.
      * exists l1', l2'. split; [|auto].
        rewrite <- E. now rewrite <- app_assoc.
Qed.

(** A split of a filtered list comes from a split of the list. *)
Lemma filter_split {A} (f : A -> bool) (l : list A) :
  forall l1' x l2',
    List.filter f l = l1' ++ x :: l2' ->
    exists l1 l2,
      l = l1 ++ x :: l2
      /\ List.filter f l1 = l1' /\ List.filter f l2 = l2' /\ f x = true.
Proof.
  induction l as [|a l IH]; intros l1' x l2' E; simpl in E.
  - destruct l1'; discriminate.
  - destruct (f a) eqn:Hfa.
    + destruct l1' as [|b l1'].
      * injection E as <- E. exists [], l. simpl. auto.
      * injection E as <- E. destruct (IH _ _ _ E) as (l1 & l2 & -> & F1 & F2 & Fx).
        exists (a :: l1), l2. simpl. rewrite Hfa, F1. auto.
    + destruct (IH _ _ _ E) as (l1 & l2 & -> & F1 & F2 & Fx).
      exists (a :: l1), l2. simpl. rewrite Hfa. auto.
Qed.

Lemma first_max_of_filter (scores : list (string * nat)) (t : string) :
  first_max (List.filter positive scores) t -> first_max scores t.
Proof.
  intros (l1' & n & l2' & E & P1 & P2).
  destruct (filter_split _ _ _ _ _ E) as (l1 & l2 & -> & F1 & F2 & Fx).
  unfold positive in Fx. simpl in Fx. apply Nat.ltb_lt in Fx.
  exists l1, n, l2. split; [reflexivity|]. split; intros e He.
  - destruct (positive e) eqn:Hp.
    + apply P1. rewrite <- F1. apply filter_In. auto.
    + unfold positive in Hp. apply Nat.ltb_ge in Hp. lia.
  - destruct (positive e) eqn:Hp.
    + apply P2. rewrite <- F2. apply filter_In. auto.
    + unfold positive in Hp. apply Nat.ltb_ge in Hp. lia.
Qed.

Lemma score_positive (kws : list string) (kw p : string) :
  In kw kws -> occurs kw p -> (0 < score kws p)%nat.
Proof.
  intros Hin Hocc. unfold score.
  assert (H : In kw (List.filter (fun keyword => PyStr.contains keyword p) kws)).
  { apply filter_In. split; [exact Hin | now apply contains_occurs]. }
  destruct (List.filter _ kws); [destruct H | simpl; lia].
Qed.

Lemma score_zero (kws : list string) (p : string) :
  (forall kw, In kw kws -> ~ occurs kw p) -> score kws p = 0%nat.
Proof.
  intros H. unfold score.
  destruct (List.filter _ kws) as [|kw l] eqn:E; [reflexivity|].
  assert (Hin : In kw (List.filter (fun keyword => PyStr.contains keyword p) kws))
    by (rewrite E; now left).
  apply filter_In in Hin. destruct Hin as [Hin Hc].
  apply contains_occurs in Hc. now destruct (H kw Hin).
Qed.

(** With a keyword in the text no random draw is made, and the theme
    returned is the first one of maximal count. *)
Lemma detect_theme_scored (self : LocalImageGenerator) (prompt : string)
    (w : World) :
  some_keyword (PyStr.lower prompt) ->
  exists t,
    detect_theme self prompt w = (Ok t, w)
    /\ first_max (all_scores theme_keywords (PyStr.lower prompt)) t.
Proof.
  intros (theme & kws & kw & Hin & Hkw & Hocc).
  unfold detect_theme. rewrite count_scores_filter.
  set (p := PyStr.lower prompt) in *.
  assert (Hne : In (theme, score kws p)
                   (List.filter positive (all_scores theme_keywords p))).
  { apply filter_In. split.
    - unfold all_scores. apply in_map_iff. exists (theme, kws). auto.
    - unfold positive. simpl. apply Nat.ltb_lt. eapply score_positive; eauto. }
  destruct (List.filter positive (all_scores theme_keywords p))
    as [|first others] eqn:E; [destruct Hne|].
  exists (fst (max_from snd first others)). split; [reflexivity|].
  apply first_max_of_filter. rewrite E.
  destruct (max_from_first snd others first [] []) as (l1' & l2' & E' & P1 & P2);
    [intros y [] | intros y [] |].
  simpl in E'. exists l1', (snd (max_from snd first others)), l2'.
  rewrite <- surjective_pairing. auto.
Qed.

Lemma keywords_are_lowercase (theme : string) (kws : list string) (kw : string) :
  In (theme, kws) theme_keywords -> In kw kws -> PyStr.lower kw = kw.
Proof.
  assert (H : forallb
                (fun entry =>
                   forallb (fun kw => String.eqb (PyStr.lower kw) kw) (snd entry))
                theme_keywords = true) by (vm_compute; reflexivity).
  rewrite forallb_forall in H. intros Hin Hkw.
  specialize (H _ Hin). simpl in H. rewrite forallb_forall in H.
  now apply String.eqb_eq, H.
Qed.

Lemma foreign_free_sound (theme p : string) :
  foreign_free theme p = true -> no_foreign_keyword theme p.
Proof.
  unfold foreign_free. rewrite forallb_forall.
  intros H theme' kws kw Hin Hne Hkw Hocc.
  specialize (H _ Hin). simpl in H. apply orb_true_iff in H.
  destruct H as [H | H].
  - apply String.eqb_eq in H. contradiction.
  - rewrite forallb_forall in H. specialize (H _ Hkw).
    apply contains_occurs in Hocc. rewrite Hocc in H. discriminate.
Qed.

Lemma all_scores_in (p t : string) (n : nat) :
  In (t, n) (all_scores theme_keywords p) ->
  exists kws, In (t, kws) theme_keywords /\ n = score kws p.
Proof.
  unfold all_scores. rewrite in_map_iff. intros [[t' kws] [E Hin]].
  simpl in E. injection E as -> <-. now exists kws.
Qed.

(** C1, amended.  A prompt whose words are keywords of one theme, and
    whose lowercased text contains no keyword of any other theme, is given
    that theme, and no random draw is made. *)
Theorem detect_theme_only_keywords (self : LocalImageGenerator)
    (theme prompt : string) (w : World) :
  only_keywords_of theme prompt ->
  no_foreign_keyword theme (PyStr.lower prompt) ->
  detect_theme self prompt w = (Ok theme, w).
Proof.
  intros (kws & Hin & Hne & Hwords) Hforeign.
  destruct (PyStr.split prompt) as [|w0 ws] eqn:Esplit; [congruence|].
  assert (Hw0 : In w0 kws) by (apply Hwords; now left).
  assert (Hocc : occurs w0 (PyStr.lower prompt)).
  { rewrite <- (keywords_are_lowercase theme kws w0 Hin Hw0).
    apply occurs_lower, split_occurs. rewrite Esplit. now left. }
  destruct (detect_theme_scored self prompt w) as (t & Erun & l1 & n & l2 & E & P1 & P2).
  { exists theme, kws, w0. auto. }
  rewrite Erun. f_equal. f_equal.
  destruct (String.eqb_spec t theme) as [|Hneq]; [assumption | exfalso].
  assert (Ht : In (t, n) (all_scores theme_keywords (PyStr.lower prompt)))
    by (rewrite E, in_app_iff; right; now left).
  destruct (all_scores_in _ _ _ Ht) as (kws_t & Hin_t & ->).
  assert (Hzero : score kws_t (PyStr.lower prompt) = 0%nat).
  { apply score_zero. intros kw Hkw. exact (Hforeign t kws_t kw Hin_t Hneq Hkw). }
  assert (Hpos : (0 < score kws (PyStr.lower prompt))%nat)
    by (eapply score_positive; eauto).
  assert (Hth : In (theme, score kws (PyStr.lower prompt))
                  (all_scores theme_keywords (PyStr.lower prompt))).
  { unfold all_scores. apply in_map_iff. exists (theme, kws). auto. }
  rewrite E, in_app_iff in Hth. destruct Hth as [Hth | [Hth | Hth]].
  - specialize (P1 _ Hth). simpl in P1. lia.
  - injection Hth as Heq _. congruence.
  - specialize (P2 _ Hth). simpl in P2. lia.
Qed.

Lemma detect_theme_only_keywords_witness :
  only_keywords_of "ocean" "sea water"
  /\ no_foreign_keyword "ocean" (PyStr.lower "sea water")
  /\ detect_theme demo_generator "sea water" (demo_world (fun _ => 0%nat))
     = (Ok "ocean", demo_world (fun _ => 0%nat)).
Proof.
  assert (H1 : only_keywords_of "ocean" "sea water").
  { exists ["ocean"; "sea"; "water"; "wave"; "beach"; "blue"].
    split; [simpl; tauto|]. split; [discriminate|].
    intros w [<- | [<- | []]]; simpl; tauto. }
  assert (H2 : no_foreign_keyword "ocean" (PyStr.lower "sea water"))
    by (apply foreign_free_sound; vm_compute; reflexivity).
  split; [exact H1|]. split; [exact H2|].
  exact (detect_theme_only_keywords demo_generator "ocean" "sea water"
           (demo_world (fun _ => 0%nat)) H1 H2).
Defined.

(** C1 as worded fails: every word of "synthwave" is a keyword of retro
    alone, yet "wave" is found inside it and ocean, which comes first, wins
    the tie. *)
Lemma detect_theme_synthwave_is_ocean :
  ~ keywords_decide demo_generator "retro" "synthwave"
      (demo_world (fun _ => 0%nat)).
Proof.
  unfold keywords_decide. intros H.
  assert (Hk : only_keywords_of "retro" "synthwave").
  { exists ["retro"; "neon"; "cyberpunk"; "80s"; "synthwave"].
    split; [simpl; tauto|]. split; [discriminate|].
    intros w [<- | []]; simpl; tauto. }
  specialize (H Hk). vm_compute in H. discriminate.
Qed.

(** C7, amended.  When some keyword occurs in the lowercased prompt, the
    theme returned has the maximal count and is the first of the catalog
    with that count; the world is left as it was. *)
Theorem detect_theme_first_max (self : LocalImageGenerator) (prompt : string)
    (w : World) :
  some_keyword (PyStr.lower prompt) ->
  picks_first_max self prompt w /\ snd (detect_theme self prompt w) = w.
Proof.
  intros H. destruct (detect_theme_scored self prompt w H) as (t & E & Hmax).
  split.
  - exists t. rewrite E. auto.
  - now rewrite E.
Qed.

Lemma detect_theme_first_max_witness :
  some_keyword (PyStr.lower "Ocean sunset")
  /\ picks_first_max demo_generator "Ocean sunset" (demo_world (fun _ => 0%nat))
  /\ snd (detect_theme demo_generator "Ocean sunset" (demo_world (fun _ => 0%nat)))
     = demo_world (fun _ => 0%nat).
Proof.
  assert (H : some_keyword (PyStr.lower "Ocean sunset")).
  { exists "sunset", ["sunset"; "dawn"; "orange"; "warm"; "golden"], "sunset".
    split; [simpl; tauto|]. split; [simpl; tauto|].
    exists "ocean ", "". reflexivity. }
  split; [exact H|].
  exact (detect_theme_first_max demo_generator "Ocean sunset"
           (demo_world (fun _ => 0%nat)) H).
Defined.

(** C7 as worded fails when no keyword occurs: all counts are zero, the
    first theme of maximal count is nature, and the random draw decides. *)
Lemma detect_theme_unmatched_is_random :
  ~ picks_first_max demo_generator "xyz" (demo_world (fun _ => 3%nat)).
Proof.
  intros (t & Et & l1 & n & l2 & E & P1 & P2).
  vm_compute in Et. injection Et as <-.
  assert (Hn : In ("space", n) (all_scores theme_keywords (PyStr.lower "xyz")))
    by (rewrite E, in_app_iff; right; now left).
  destruct l1 as [|e l1].
  - vm_compute in E. discriminate.
  - assert (He : e = ("nature", 0%nat)) by (vm_compute in E; congruence).
    specialize (P1 e (or_introl eq_refl)). subst e. simpl in P1.
    vm_compute in Hn.
    repeat (destruct Hn as [Hn | Hn]; [try discriminate; injection Hn as Hn; lia|]).
    destruct Hn.
Qed.

(** ** Rounding to binary64 *)

Local Open Scope Z_scope.

Lemma floor_log2_lower (n d : Z) :
  0 < n -> 0 < d ->
  let v := PyFloat.floor_log2 n d in
  (0 <= v -> d * 2 ^ v <= n) /\ (v < 0 -> d <= n * 2 ^ (- v)).
Proof.
  intros Hn Hd. unfold PyFloat.floor_log2.
  destruct (Z.log2_spec n Hn) as [Hn1 Hn2].
  destruct (Z.log2_spec d Hd) as [Hd1 Hd2].
  pose proof (Z.log2_nonneg n) as Hln. pose proof (Z.log2_nonneg d) as Hld.
  set (ln := Z.log2 n) in *. set (ld := Z.log2 d) in *.
  rewrite <- Z.add_1_r in Hn2, Hd2.
  destruct (Z.leb_spec 0 (ln - ld)) as [Hk | Hk].
  - destruct (Z.leb_spec (d * 2 ^ (ln - ld)) n) as [Ht | Ht]; cbv zeta.
    + split; [auto | lia].
    + split; intros Hv.
      * assert (E : 2 ^ ln = 2 ^ (ld + 1) * 2 ^ (ln - ld - 1))
          by (rewrite <- Z.pow_add_r by lia; f_equal; lia).
        assert (0 < 2 ^ (ln - ld - 1)) by (apply Z.pow_pos_nonneg; lia).
        nia.
      * assert (Hk0 : ln - ld = 0) by lia.
        replace (- (ln - ld - 1)) with 1 by lia.
        replace ln with ld in * by lia.
        rewrite Z.pow_add_r in Hd2 by lia. change (2 ^ 1) with 2 in *. lia.
  - destruct (Z.leb_spec d (n * 2 ^ (- (ln - ld)))) as [Ht | Ht]; cbv zeta.
    + split; [lia | auto].
    + split; [lia | intros _].
      assert (E : 2 ^ (ld + 1) = 2 ^ ln * 2 ^ (- (ln - ld - 1)))
        by (rewrite <- Z.pow_add_r by lia; f_equal; lia).
      assert (0 < 2 ^ (- (ln - ld - 1))) by (apply Z.pow_pos_nonneg; lia).
      nia.
Qed.

Lemma rne_upper (a b M : Z) : 0 < b -> a <= M * b -> PyFloat.rne a b <= M.
Proof.
  intros Hb Ha. unfold PyFloat.rne.
  pose proof (Z.div_mod a b ltac:(lia)) as E.
  pose proof (Z.mod_pos_bound a b Hb) as Hr.
  assert (Hq : a / b <= M) by (apply Z.div_le_upper_bound; lia).
  assert (Hq1 : 0 < a mod b -> a / b + 1 <= M) by nia.
  destruct (Z.compare_spec (2 * (a mod b)) b) as [Hc | Hc | Hc].
  - destruct (Z.even (a / b)); [exact Hq | apply Hq1; lia].
  - exact Hq.
  - apply Hq1; lia.
Qed.

Lemma rne_lower (a b M : Z) : 0 < b -> M * b <= a -> M <= PyFloat.rne a b.
Proof.
  intros Hb Ha. unfold PyFloat.rne.
  assert (Hq : M <= a / b) by (apply Z.div_le_lower_bound; lia).
  destruct (2 * (a mod b) ?= b); [destruct (Z.even (a / b))| |]; lia.
Qed.

(** Below [2 ^ 53] the grid of binary64 contains the integers. *)
Lemma rnd_pos_exponent (n d : Z) :
  0 < n -> 0 < d -> n < 2 ^ 53 * d ->
  Z.max (PyFloat.floor_log2 n d - 52) (-1074) <= 0.
Proof.
  intros Hn Hd Hlt.
  destruct (floor_log2_lower n d Hn Hd) as [Hv _].
  destruct (Z.le_gt_cases (PyFloat.floor_log2 n d) 52) as [|Hbig]; [lia|].
  specialize (Hv ltac:(lia)).
  assert (2 ^ 53 <= 2 ^ PyFloat.floor_log2 n d) by (apply Z.pow_le_mono_r; lia).
  nia.
Qed.

Lemma rnd_pos_fine (n d : Z) :
  0 < n -> 0 < d -> n < 2 ^ 53 * d ->
  exists k, 0 <= k
    /\ (PyFloat.rnd_pos n d == PyFloat.rne (n * 2 ^ k) d # Z.to_pos (2 ^ k))%Q.
Proof.
  intros Hn Hd Hlt. pose proof (rnd_pos_exponent n d Hn Hd Hlt) as He.
  unfold PyFloat.rnd_pos, PyFloat.scale2.
  set (e := Z.max (PyFloat.floor_log2 n d - 52) (-1074)) in *.
  destruct (Z.leb_spec 0 e) as [H0 | H0].
  - assert (e = 0) as -> by lia. exists 0. split; [lia|].
    change (2 ^ 0) with 1. rewrite !Z.mul_1_r. reflexivity.
  - exists (- e). split; [lia | reflexivity].
Qed.

Lemma rnd_pos_upper (n d N : Z) :
  0 < n -> 0 < d -> n < 2 ^ 53 * d -> n <= N * d ->
  (PyFloat.rnd_pos n d <= inject_Z N)%Q.
Proof.
  intros Hn Hd Hlt HN.
  destruct (rnd_pos_fine n d Hn Hd Hlt) as (k & Hk & ->).
  assert (Hp : 0 < 2 ^ k) by (apply Z.pow_pos_nonneg; lia).
  unfold Qle; simpl. rewrite Z2Pos.id by exact Hp. rewrite Z.mul_1_r.
  apply rne_upper; [exact Hd | nia].
Qed.

Lemma rnd_pos_lower (n d N : Z) :
  0 < n -> 0 < d -> n < 2 ^ 53 * d -> N * d <= n ->
  (inject_Z N <= PyFloat.rnd_pos n d)%Q.
Proof.
  intros Hn Hd Hlt HN.
  destruct (rnd_pos_fine n d Hn Hd Hlt) as (k & Hk & ->).
  assert (Hp : 0 < 2 ^ k) by (apply Z.pow_pos_nonneg; lia).
  unfold Qle; simpl. rewrite Z2Pos.id by exact Hp. rewrite Z.mul_1_r.
  apply rne_lower; [exact Hd | nia].
Qed.

(** Rounding never crosses an integer. *)
Lemma rnd64_upper (q : Q) (N : Z) :
  small q -> (q <= inject_Z N)%Q -> (PyFloat.rnd64 q <= inject_Z N)%Q.
Proof.
  destruct q as [num den]. unfold small, PyFloat.rnd64; simpl.
  intros Hs HN. unfold Qle in HN; simpl in HN. rewrite Z.mul_1_r in HN.
  destruct num as [|n|n].
  - unfold Qle; simpl. lia.
  - apply rnd_pos_upper; lia.
  - assert (H : (inject_Z (- N) <= PyFloat.rnd_pos (Zpos n) (Zpos den))%Q)
      by (apply rnd_pos_lower; lia).
    apply Qopp_le_compat in H. eapply Qle_trans; [exact H|].
    unfold Qle; simpl. lia.
Qed.

Lemma rnd64_lower (q : Q) (N : Z) :
  small q -> (inject_Z N <= q)%Q -> (inject_Z N <= PyFloat.rnd64 q)%Q.
Proof.
  destruct q as [num den]. unfold small, PyFloat.rnd64; simpl.
  intros Hs HN. unfold Qle in HN; simpl in HN. rewrite Z.mul_1_r in HN.
  destruct num as [|n|n].
  - unfold Qle; simpl. lia.
  - apply rnd_pos_lower; lia.
  - assert (H : (PyFloat.rnd_pos (Zpos n) (Zpos den) <= inject_Z (- N))%Q)
      by (apply rnd_pos_upper; lia).
    apply Qopp_le_compat in H. eapply Qle_trans; [|exact H].
    unfold Qle; simpl. lia.
Qed.

Lemma small_bounded (q : Q) (lo hi : Z) :
  - 2 ^ 53 < lo -> hi < 2 ^ 53 ->
  (inject_Z lo <= q)%Q -> (q <= inject_Z hi)%Q -> small q.
Proof.
  destruct q as [num den]. unfold small, Qle; simpl. nia.
Qed.

(** A value between two integers rounds to a value between them. *)
Lemma rnd64_between (q : Q) (lo hi : Z) :
  - 2 ^ 53 < lo -> hi < 2 ^ 53 ->
  (inject_Z lo <= q <= inject_Z hi)%Q ->
  (inject_Z lo <= PyFloat.rnd64 q <= inject_Z hi)%Q.
Proof.
  intros Hlo Hhi [H1 H2].
  pose proof (small_bounded q lo hi Hlo Hhi H1 H2) as Hs.
  split; [now apply rnd64_lower | now apply rnd64_upper].
Qed.

Lemma of_int_exact (n : Z) :
  - 2 ^ 53 < n < 2 ^ 53 -> (PyFloat.of_int n == inject_Z n)%Q.
Proof.
  intros Hn. apply Qle_antisym; apply (rnd64_between (inject_Z n) n n);
    try lia; split; apply Qle_refl.
Qed.

(** Truncation keeps a value between the integers that bound it. *)
Lemma to_int_between (q : Q) (lo hi : Z) :
  (inject_Z lo <= q <= inject_Z hi)%Q -> lo <= PyFloat.to_int q <= hi.
Proof.
  destruct q as [num den]. unfold Qle, PyFloat.to_int; simpl.
  rewrite !Z.mul_1_r. intros [H1 H2].
  pose proof (Z.quot_rem' num (Zpos den)) as E.
  set (p := Zpos den) in *. assert (Hp : 0 < p) by (subst p; lia).
  set (u := Z.quot num p) in *. set (r := Z.rem num p) in *.
  assert (Hr : (0 <= num -> 0 <= r < p) /\ (num < 0 -> - p < r <= 0)).
  { split; intros Hs.
    - apply Z.rem_bound_pos; lia.
    - apply Z.rem_bound_pos_neg; lia. }
  destruct Hr as [Hr1 Hr2].
  assert (Hlo : lo * p < (u + 1) * p) by (destruct (Z.le_gt_cases 0 num); lia).
  assert (Hhi : (u - 1) * p < hi * p) by (destruct (Z.le_gt_cases 0 num); lia).
  apply Z.mul_lt_mono_pos_r in Hlo, Hhi; lia.
Qed.

(** ** Square roots *)

Lemma scale2_num_pos (m e : Z) : 0 < m -> 0 < Qnum (PyFloat.scale2 m e).
Proof.
  intros Hm. unfold PyFloat.scale2. destruct (Z.leb_spec 0 e); simpl.
  - assert (0 < 2 ^ e) by (apply Z.pow_pos_nonneg; lia). nia.
  - exact Hm.
Qed.

(** A positive integer becomes a positive float. *)
Lemma of_int_num_pos (n : Z) : 0 < n -> 0 < Qnum (PyFloat.of_int n).
Proof.
  intros Hn. destruct n as [|p|p]; try lia.
  unfold PyFloat.of_int, PyFloat.rnd64. cbn [inject_Z Qnum Qden].
  unfold PyFloat.rnd_pos. apply scale2_num_pos.
  destruct (floor_log2_lower (Zpos p) 1 ltac:(lia) ltac:(lia)) as [Hv _].
  set (v := PyFloat.floor_log2 (Zpos p) 1) in *.
  destruct (Z.leb_spec 0 (Z.max (v - 52) (-1074))) as [He | He].
  - assert (Ev : Z.max (v - 52) (-1074) = v - 52) by lia. rewrite Ev in *.
    apply (Z.lt_le_trans 0 1); [lia|]. apply rne_lower.
    + assert (0 < 2 ^ (v - 52)) by (apply Z.pow_pos_nonneg; lia). lia.
    + specialize (Hv ltac:(lia)).
      assert (2 ^ (v - 52) <= 2 ^ v) by (apply Z.pow_le_mono_r; lia). lia.
  - apply (Z.lt_le_trans 0 1); [lia|]. apply rne_lower; [lia|].
    assert (0 < 2 ^ (- Z.max (v - 52) (-1074)))
      by (apply Z.pow_pos_nonneg; lia).
    nia.
Qed.

Lemma four_pow (k : Z) : 0 <= k -> 4 ^ k = 2 ^ (2 * k).
Proof. intros Hk. change 4 with (2 ^ 2). now rewrite <- Z.pow_mul_r by lia. Qed.

(** The root of a positive float is a positive float. *)
Lemma sqrt_pos_num_pos (n d : Z) :
  0 < n -> 0 < d -> 0 < Qnum (PyFloat.sqrt_pos n d).
Proof.
  intros Hn Hd. unfold PyFloat.sqrt_pos. apply scale2_num_pos.
  destruct (floor_log2_lower n d Hn Hd) as [Hv1 Hv2].
  set (v := PyFloat.floor_log2 n d) in *.
  set (e := v / 2 - 52).
  assert (He : 2 * e <= v - 104).
  { subst e. pose proof (Z.mul_div_le v 2 ltac:(lia)). lia. }
  set (N := if 0 <=? e then n else n * 4 ^ (- e)).
  set (D := if 0 <=? e then d * 4 ^ e else d).
  assert (HD : 0 < D).
  { subst D. destruct (Z.leb_spec 0 e); [|exact Hd].
    assert (0 < 4 ^ e) by (apply Z.pow_pos_nonneg; lia). nia. }
  assert (HND : D <= N).
  { subst N D. destruct (Z.leb_spec 0 e) as [H0 | H0].
    - rewrite four_pow by lia. specialize (Hv1 ltac:(lia)).
      assert (2 ^ (2 * e) <= 2 ^ v) by (apply Z.pow_le_mono_r; lia). nia.
    - rewrite four_pow by lia.
      destruct (Z.le_gt_cases 0 v) as [Hv | Hv].
      + specialize (Hv1 Hv).
        assert (0 < 2 ^ v) by (apply Z.pow_pos_nonneg; lia).
        assert (0 < 2 ^ (2 * - e)) by (apply Z.pow_pos_nonneg; lia). nia.
      + specialize (Hv2 Hv).
        assert (2 ^ (- v) <= 2 ^ (2 * - e)) by (apply Z.pow_le_mono_r; lia).
        nia. }
  assert (Hq : 1 <= N / D) by (apply Z.div_le_lower_bound; lia).
  assert (Hs : 1 <= Z.sqrt (N / D)).
  { change 1 with (Z.sqrt 1). apply Z.sqrt_le_mono. exact Hq. }
  set (m0 := Z.sqrt (N / D)) in *.
  destruct (4 * N ?= (4 * m0 * m0 + 4 * m0 + 1) * D);
    [destruct (Z.even m0)| |]; lia.
Qed.

Lemma sqrt_int_ok (n : Z) : 0 <= n -> exists v, sqrt_int n = Ok v.
Proof.
  intros Hn. unfold sqrt_int, PyFloat.sqrt.
  destruct (Z.eq_dec n 0) as [-> | Hne].
  - exists 0%Q. reflexivity.
  - pose proof (of_int_num_pos n ltac:(lia)) as Hp.
    destruct (Qnum (PyFloat.of_int n)); try lia. eexists. reflexivity.
Qed.

Lemma sqrt_int_nonzero (n : Z) :
  0 < n -> exists v, sqrt_int n = Ok v /\ Qeq_bool v 0 = false.
Proof.
  intros Hn. unfold sqrt_int, PyFloat.sqrt.
  pose proof (of_int_num_pos n Hn) as Hp.
  destruct (Qnum (PyFloat.of_int n)) as [|p|p] eqn:E; try lia.
  eexists. split; [reflexivity|].
  pose proof (sqrt_pos_num_pos (Zpos p) (Zpos (Qden (PyFloat.of_int n)))
                ltac:(lia) ltac:(lia)) as Hs.
  unfold Qeq_bool. simpl. apply Z.eqb_neq. lia.
Qed.

(** ** Blending *)

Lemma blend_channel_between (c1 c2 lo hi : Z) (ratio : Q) :
  0 <= c1 <= 255 -> 0 <= c2 <= 255 -> -255 <= lo -> hi <= 255 ->
  (inject_Z lo <= inject_Z (c2 - c1) * ratio <= inject_Z hi)%Q ->
  c1 + lo <= blend_channel c1 c2 ratio <= c1 + hi.
Proof.
  intros H1 H2 Hlo Hhi [Hl Hh]. unfold blend_channel, PyFloat.add, PyFloat.mul.
  assert (ED : (PyFloat.of_int (c2 - c1) == inject_Z (c2 - c1))%Q)
    by (apply of_int_exact; lia).
  assert (EC : (PyFloat.of_int c1 == inject_Z c1)%Q)
    by (apply of_int_exact; lia).
  set (D := PyFloat.of_int (c2 - c1)) in *. set (C := PyFloat.of_int c1) in *.
  assert (HP : (inject_Z lo <= PyFloat.rnd64 (D * ratio) <= inject_Z hi)%Q).
  { apply rnd64_between; [lia | lia |]. rewrite ED. now split. }
  set (P := PyFloat.rnd64 (D * ratio)) in *. destruct HP as [HP1 HP2].
  apply to_int_between. apply rnd64_between; [lia | lia |].
  rewrite EC, !inject_Z_plus. split.
  - apply Qplus_le_r. exact HP1.
  - apply Qplus_le_r. exact HP2.
Qed.

Lemma hex_digit_range (c : ascii) (d : Z) :
  PyStr.hex_digit c = Some d -> 0 <= d <= 15.
Proof.
  unfold PyStr.hex_digit.
  repeat match goal with
         | |- context [(?a <=? ?b)%nat] => destruct (Nat.leb_spec a b)
         end; simpl; intros E; try discriminate; injection E as <-; lia.
Qed.

Lemma int16_two_digits (a b : ascii) :
  is_hex a = true -> is_hex b = true ->
  exists v, PyStr.int16 (String a (String b EmptyString)) = Some v
            /\ 0 <= v <= 255.
Proof.
  unfold is_hex, PyStr.int16. simpl.
  destruct (PyStr.hex_digit a) as [da|] eqn:Ea; [|discriminate].
  destruct (PyStr.hex_digit b) as [db|] eqn:Eb; [|discriminate].
  intros _ _. exists (16 * (16 * 0 + da) + db). split; [reflexivity|].
  apply hex_digit_range in Ea, Eb. lia.
Qed.

Lemma valid_hex_channels (color : string) :
  valid_hex_color color = true ->
  exists r g b,
    hex_channels color = Ok (r, g, b)
    /\ 0 <= r <= 255 /\ 0 <= g <= 255 /\ 0 <= b <= 255.
Proof.
  unfold valid_hex_color.
  destruct color as [|a0 [|a1 [|a2 [|a3 [|a4 [|a5 [|a6 [|a7 rest]]]]]]]];
    try discriminate.
  rewrite !andb_true_iff. intros [_ Hhex]. cbn in Hhex.
  rewrite !andb_true_iff in Hhex.
  destruct Hhex as (H1 & H2 & H3 & H4 & H5 & H6 & _).
  destruct (int16_two_digits a1 a2 H1 H2) as (r & Er & Hr).
  destruct (int16_two_digits a3 a4 H3 H4) as (g & Eg & Hg).
  destruct (int16_two_digits a5 a6 H5 H6) as (b & Eb & Hb).
  exists r, g, b. unfold hex_channels. cbn [PyStr.slice substring Nat.sub].
  rewrite Er, Eg, Eb. simpl. auto.
Qed.

Lemma blend_channel_zero (c1 c2 : Z) :
  0 <= c1 <= 255 -> 0 <= c2 <= 255 -> blend_channel c1 c2 0 = c1.
Proof.
  intros H1 H2.
  assert (H : c1 + 0 <= blend_channel c1 c2 0 <= c1 + 0).
  { apply blend_channel_between; try lia. rewrite Qmult_0_r. split; apply Qle_refl. }
  lia.
Qed.

Lemma blend_channel_one (c1 c2 : Z) :
  0 <= c1 <= 255 -> 0 <= c2 <= 255 -> blend_channel c1 c2 1 = c2.
Proof.
  intros H1 H2.
  assert (H : c1 + (c2 - c1) <= blend_channel c1 c2 1 <= c1 + (c2 - c1)).
  { apply blend_channel_between; try lia. rewrite Qmult_1_r. split; apply Qle_refl. }
  lia.
Qed.

Lemma blend_channel_unit (c1 c2 : Z) (ratio : Q) :
  0 <= c1 <= 255 -> 0 <= c2 <= 255 -> (0 <= ratio <= 1)%Q ->
  Z.min c1 c2 <= blend_channel c1 c2 ratio <= Z.max c1 c2.
Proof.
  intros H1 H2 [Hr0 Hr1].
  destruct (Z.le_gt_cases c1 c2) as [Hle | Hgt].
  - assert (H : c1 + 0 <= blend_channel c1 c2 ratio <= c1 + (c2 - c1)).
    { apply blend_channel_between; try lia.
      unfold Qle in *. destruct ratio as [rn rd]. simpl in *. nia. }
    lia.
  - assert (H : c1 + (c2 - c1) <= blend_channel c1 c2 ratio <= c1 + 0).
    { apply blend_channel_between; try lia.
      unfold Qle in *. destruct ratio as [rn rd]. simpl in *. nia. }
    lia.
Qed.

Lemma hex_value_digit (c : ascii) : hex_value c = PyStr.hex_digit c.
Proof. destruct c as [[] [] [] [] [] [] [] []]; reflexivity. Qed.

Lemma int16_byte (a b : ascii) :
  PyStr.int16 (String a (String b EmptyString)) = byte_of_hex a b.
Proof.
  unfold byte_of_hex, PyStr.int16. rewrite !hex_value_digit. simpl.
  destruct (PyStr.hex_digit a) as [da|]; [|reflexivity].
  destruct (PyStr.hex_digit b) as [db|]; reflexivity.
Qed.

(** The parser of the code reads a valid colour as the triple it names. *)
Lemma valid_hex_decodes (color : string) :
  valid_hex_color color = true ->
  exists r g b,
    rgb_of_hex color = Some (r, g, b)
    /\ hex_channels color = Ok (r, g, b)
    /\ 0 <= r <= 255 /\ 0 <= g <= 255 /\ 0 <= b <= 255.
Proof.
  intros V. destruct (valid_hex_channels color V) as (r & g & b & E & Hr).
  exists r, g, b. split; [|split; [exact E | exact Hr]].
  unfold valid_hex_color in V.
  destruct color as [|a0 [|a1 [|a2 [|a3 [|a4 [|a5 [|a6 [|a7 rest]]]]]]]];
    try discriminate.
  rewrite !andb_true_iff in V. destruct V as [[_ Hs] _].
  cbn [PyStr.startswith] in Hs. rewrite andb_true_r in Hs.
  apply Ascii.eqb_eq in Hs. subst a0.
  unfold hex_channels in E. cbn [PyStr.slice substring Nat.sub] in E.
  rewrite !int16_byte in E. cbn [rgb_of_hex].
  rewrite Ascii.eqb_refl.
  destruct (byte_of_hex a1 a2); [|discriminate].
  destruct (byte_of_hex a3 a4); [|discriminate].
  destruct (byte_of_hex a5 a6); [|discriminate].
  simpl in E. now injection E as -> -> ->.
Qed.

(** C2.  For valid six-digit hex colours, [blend_colors] at ratio 0.0 is
    the RGB triple the first colour names, at ratio 1.0 the triple the
    second names, and at any ratio of [0, 1] a colour whose every channel
    lies between the two, under binary64 rounding.  The triple a colour
    names is read off its digits by [rgb_of_hex], not by the parser of the
    code. *)
Theorem blend_colors_interpolates (color1 color2 : string) :
  valid_hex_color color1 = true ->
  valid_hex_color color2 = true ->
  exists rgb1 rgb2,
    rgb_of_hex color1 = Some rgb1
    /\ rgb_of_hex color2 = Some rgb2
    /\ blend_colors color1 color2 0 = Ok rgb1
    /\ blend_colors color1 color2 1 = Ok rgb2
    /\ forall ratio : Q,
         (0 <= ratio <= 1)%Q ->
         exists rgb,
           blend_colors color1 color2 ratio = Ok rgb
           /\ channels_between rgb1 rgb2 rgb.
Proof.
  intros V1 V2.
  destruct (valid_hex_decodes color1 V1)
    as (r1 & g1 & b1 & D1 & E1 & Hr1 & Hg1 & Hb1).
  destruct (valid_hex_decodes color2 V2)
    as (r2 & g2 & b2 & D2 & E2 & Hr2 & Hg2 & Hb2).
  exists (r1, g1, b1), (r2, g2, b2).
  split; [exact D1|]. split; [exact D2|].
  unfold blend_colors. rewrite E1, E2. simpl.
  repeat split; try reflexivity.
  - now rewrite !blend_channel_zero.
  - now rewrite !blend_channel_one.
  - intros ratio Hr. eexists. split; [reflexivity|].
    simpl. repeat split; apply blend_channel_unit; assumption.
Qed.

Lemma blend_colors_interpolates_witness :
  valid_hex_color "#006994" = true
  /\ valid_hex_color "#4682B4" = true
  /\ blend_colors "#006994" "#4682B4" 0 = Ok (0, 105, 148)
  /\ blend_colors "#006994" "#4682B4" 1 = Ok (70, 130, 180)
  /\ forall ratio : Q,
       (0 <= ratio <= 1)%Q ->
       exists rgb,
         blend_colors "#006994" "#4682B4" ratio = Ok rgb
         /\ channels_between (0, 105, 148) (70, 130, 180) rgb.
Proof.
  split; [reflexivity|]. split; [reflexivity|].
  destruct (blend_colors_interpolates "#006994" "#4682B4" eq_refl eq_refl)
    as (rgb1 & rgb2 & D1 & D2 & B0 & B1 & H).
  vm_compute in D1, D2. injection D1 as <-. injection D2 as <-.
  split; [exact B0|]. split; [exact B1 | exact H].
Defined.

Local Close Scope Z_scope.

(** ** The scanner of [split] *)

Lemma split_from_blank (lead s : string) :
  blank lead -> PyStr.split_from "" (lead ++ s) = PyStr.split_from "" s.
Proof.
  unfold blank. induction lead as [|c lead IH]; simpl; [reflexivity|].
  rewrite andb_true_iff. intros [-> Hl]. simpl. auto.
Qed.

Lemma split_from_word (w cur s : string) :
  PyStr.all_chars (fun c => negb (PyStr.isspace c)) w = true ->
  PyStr.split_from cur (w ++ s) = PyStr.split_from (cur ++ w) s.
Proof.
  revert cur. induction w as [|c w IH]; simpl; intros cur.
  - now rewrite string_app_nil_r.
  - rewrite andb_true_iff, negb_true_iff. intros [-> Hw].
    rewrite IH by exact Hw. now rewrite string_app_assoc.
Qed.

Lemma flush_word (w : string) : w <> "" -> PyStr.flush w = [w].
Proof. destruct w; [congruence | reflexivity]. Qed.

Lemma split_words_of (s : string) (ws : list string) :
  words_of s ws -> PyStr.split s = ws.
Proof.
  unfold PyStr.split. induction 1 as [s Hb | lead w Hl [Hne Hw]
                                     | lead w c rest ws Hl [Hne Hw] Hc _ IH].
  - rewrite <- (string_app_nil_r s). now rewrite split_from_blank.
  - rewrite split_from_blank by exact Hl.
    rewrite <- (string_app_nil_r w) at 1. rewrite split_from_word by exact Hw.
    simpl. now apply flush_word.
  - rewrite split_from_blank by exact Hl.
    rewrite split_from_word by exact Hw. simpl. rewrite Hc, IH.
    now rewrite flush_word.
Qed.

(** Every text has words in this sense: the ones [split] returns. *)
Lemma words_of_split_from (s cur : string) :
  PyStr.all_chars (fun c => negb (PyStr.isspace c)) cur = true ->
  words_of (cur ++ s) (PyStr.split_from cur s).
Proof.
  revert cur. induction s as [|c s IH]; intros cur Hcur.
  - rewrite string_app_nil_r. simpl. unfold PyStr.flush.
    destruct cur as [|a cur]; simpl.
    + now apply words_none.
    + apply (words_last "" (String a cur)); [reflexivity|]. split; [discriminate|exact Hcur].
  - simpl. destruct (PyStr.isspace c) eqn:Hc.
    + unfold PyStr.flush. destruct cur as [|a cur]; simpl.
      * specialize (IH "" eq_refl). simpl in IH.
        remember (PyStr.split_from "" s) as ws eqn:Ews.
        clear Ews. induction IH as [r Hb | lead w Hl Hw | lead w c' rest ws Hl Hw Hc' Hr _].
        -- apply words_none. unfold blank in *. simpl. now rewrite Hc, Hb.
        -- apply (words_last (String c lead) w); [|exact Hw].
           unfold blank in *. simpl. now rewrite Hc, Hl.
        -- apply (words_next (String c lead) w c' rest ws); auto.
           unfold blank in *. simpl. now rewrite Hc, Hl.
      * apply (words_next "" (String a cur) c s); [reflexivity | | exact Hc |].
        -- split; [discriminate | exact Hcur].
        -- exact (IH "" eq_refl).
    + specialize (IH (cur ++ String c "")%string).
      rewrite string_app_assoc in IH. simpl in IH. apply IH.
      clear IH. induction cur as [|a cur IHc]; simpl in *.
      * now rewrite Hc.
      * apply andb_true_iff in Hcur. destruct Hcur as [-> Hcur]. simpl. auto.
Qed.

Lemma words_of_total (s : string) : words_of s (PyStr.split s).
Proof. exact (words_of_split_from s "" eq_refl). Qed.

(** ** Running the monad *)

Lemma bind_ok {A B} (m : M A) (k : A -> M B) (w w1 : World) (a : A) :
  m w = (Ok a, w1) -> bind m k w = k a w1.
Proof. intros E. unfold bind. now rewrite E. Qed.

Lemma bind_print {B} (m : Msg) (k : unit -> M B) (w : World) :
  bind (print m) k w = k tt (logged w m).
Proof. reflexivity. Qed.

Lemma bind_lift {A B} (a : A) (k : A -> M B) (w : World) :
  bind (lift (Ok a)) k w = k a w.
Proof. reflexivity. Qed.

Lemma bind_ret {A B} (a : A) (k : A -> M B) (w : World) :
  bind (ret a) k w = k a w.
Proof. reflexivity. Qed.

Lemma bind_inv {A B} (m : M A) (k : A -> M B) (w w' : World) (b : B) :
  bind m k w = (Ok b, w') ->
  exists a w1, m w = (Ok a, w1) /\ k a w1 = (Ok b, w').
Proof.
  unfold bind. destruct (m w) as [[a | e] w1]; [|discriminate].
  intros E. now exists a, w1.
Qed.

Lemma lift_inv {A} (r : result A) (w w' : World) (a : A) :
  lift r w = (Ok a, w') -> r = Ok a /\ w' = w.
Proof. unfold lift. intros E. injection E as -> ->. auto. Qed.

Lemma ret_inv {A} (x a : A) (w w' : World) :
  ret x w = (Ok a, w') -> a = x /\ w' = w.
Proof. unfold ret. intros E. injection E as -> ->. auto. Qed.

Lemma choice_ok {A} (seq : list A) (w : World) :
  seq <> [] ->
  exists a, In a seq
    /\ random.choice seq w
       = (Ok a, mkWorld (rand_src w) (S (rand_pos w)) (clock w) (clock_pos w)
                  (writable w) (disk w) (stdout w)).
Proof.
  destruct seq as [|d seq]; [congruence | intros _].
  unfold random.choice, bind, randbelow, ret.
  eexists. split; [|reflexivity].
  apply nth_In. apply Nat.mod_upper_bound. simpl. lia.
Qed.

Lemma choice_inv {A} (seq : list A) (w w' : World) (a : A) :
  random.choice seq w = (Ok a, w') -> In a seq /\ disk w' = disk w.
Proof.
  destruct seq as [|d seq]; [discriminate|].
  destruct (choice_ok (d :: seq) w ltac:(discriminate)) as (a' & Hin & E).
  rewrite E. intros E'. injection E' as -> <-. auto.
Qed.

Lemma rbind_inv {A B} (r : result A) (k : A -> result B) (b : B) :
  rbind r k = Ok b -> exists a, r = Ok a /\ k a = Ok b.
Proof. destruct r as [a | e]; simpl; [|discriminate]. intros E. now exists a. Qed.

Lemma randint_ok (a b : Z) (w : World) :
  (a <= b)%Z ->
  exists v, (a <= v <= b)%Z
    /\ random.randint a b w
       = (Ok v, mkWorld (rand_src w) (S (rand_pos w)) (clock w) (clock_pos w)
                  (writable w) (disk w) (stdout w)).
Proof.
  intros Hab. unfold random.randint.
  destruct (Z.ltb_spec b a) as [|_]; [lia|].
  unfold bind, randbelow, ret. eexists. split; [|reflexivity].
  pose proof (Nat.mod_upper_bound (rand_src w (rand_pos w))
                (Z.to_nat (b - a + 1)) ltac:(lia)).
  lia.
Qed.

Lemma randint_inv (a b v : Z) (w w' : World) :
  random.randint a b w = (Ok v, w') ->
  (a <= v <= b)%Z /\ disk w' = disk w.
Proof.
  unfold random.randint. destruct (Z.ltb_spec b a) as [|Hab]; [discriminate|].
  destruct (randint_ok a b w Hab) as (v' & Hv & E).
  unfold random.randint in E. destruct (Z.ltb_spec b a) as [|_]; [lia|].
  rewrite E. intros E'. injection E' as -> <-. auto.
Qed.

(** A property kept by every round of a loop holds when the loop ends. *)
Lemma for_r_invariant {A S} (P : S -> Prop) (body : A -> S -> result S)
    (xs : list A) :
  (forall x s s', P s -> body x s = Ok s' -> P s') ->
  forall s s', P s -> for_r xs body s = Ok s' -> P s'.
Proof.
  intros Hbody. induction xs as [|x xs IH]; simpl; intros s s' Hs E.
  - injection E as <-. exact Hs.
  - apply rbind_inv in E. destruct E as (s1 & E1 & E2). eauto.
Qed.

Lemma for_m_invariant {A S} (P : S -> Prop) (body : A -> S -> M S)
    (xs : list A) :
  (forall x s w s' w', P s -> body x s w = (Ok s', w') -> P s') ->
  forall s w s' w', P s -> for_m xs body s w = (Ok s', w') -> P s'.
Proof.
  intros Hbody. induction xs as [|x xs IH]; simpl; intros s w s' w' Hs E.
  - apply ret_inv in E. destruct E as [-> _]. exact Hs.
  - apply bind_inv in E. destruct E as (s1 & w1 & E1 & E2). eauto.
Qed.

(** A loop whose rounds all succeed succeeds. *)
Lemma for_m_total {A S} (P : S -> Prop) (body : A -> S -> M S) (xs : list A) :
  (forall x s w, P s -> exists s' w', body x s w = (Ok s', w') /\ P s') ->
  forall s w, P s -> exists s' w', for_m xs body s w = (Ok s', w') /\ P s'.
Proof.
  intros Hbody. induction xs as [|x xs IH]; simpl; intros s w Hs.
  - exists s, w. auto.
  - destruct (Hbody x s w Hs) as (s1 & w1 & E1 & H1).
    destruct (IH s1 w1 H1) as (s2 & w2 & E2 & H2).
    exists s2, w2. now rewrite (bind_ok _ _ _ _ _ E1).
Qed.

(** Inverting a successful run, one statement at a time. *)
Ltac run_inv H :=
  let a := fresh "a" in
  let w1 := fresh "w" in
  let E := fresh "E" in
  apply bind_inv in H; destruct H as (a & w1 & E & H).

Ltac lift_inv H :=
  apply lift_inv in H; let E := fresh "E" in destruct H as [E ->].

(** ** What a run leaves of the world *)








(** ** Palettes *)

Lemma getrgb_valid (color : string) :
  valid_hex_color color = true -> exists rgb, PIL.getrgb color = Ok rgb.
Proof.
  intros V. destruct (valid_hex_channels color V) as (r & g & b & E & _).
  unfold PIL.getrgb.
  destruct (String.eqb_spec color "white") as [-> | _]; [discriminate|].
  destruct (String.eqb_spec color "black") as [-> | _]; [discriminate|].
  unfold valid_hex_color in V. rewrite !andb_true_iff in V.
  destruct V as [[-> ->] _]. cbn [andb].
  unfold hex_channels in E.
  destruct (PyStr.int16 (PyStr.slice 1 3 color)); [|discriminate].
  destruct (PyStr.int16 (PyStr.slice 3 5 color)); [|discriminate].
  destruct (PyStr.int16 (PyStr.slice 5 7 color)); [|discriminate].
  eexists. reflexivity.
Qed.

Lemma dict_get_In {V} (d : list (string * V)) (k : string) (v : V) :
  dict_get d k = Some v -> In (k, v) d.
Proof.
  induction d as [|[k' v'] d IH]; simpl; [discriminate|].
  destruct (String.eqb_spec k' k) as [-> | _].
  - intros E. injection E as ->. now left.
  - intros E. right. auto.
Qed.


(** ** Blank prompts *)


Lemma lstrip_shape (s : string) :
  (PyStr.lstrip s = "" /\ blank s)
  \/ exists c s', PyStr.lstrip s = String c s' /\ PyStr.isspace c = false.
Proof.
  unfold blank. induction s as [|c s IH]; simpl; [now left|].
  destruct (PyStr.isspace c) eqn:Hc.
  - destruct IH as [[E Hb] | (c' & s' & E & Hc')]; [left | right]; eauto.
  - right. now exists c, s.
Qed.



(** ** Sizes *)

Lemma paint_size {P} (cover : Z -> Z -> bool) (ink : P) (im : Image P) :
  PIL.size (PIL.paint cover ink im) = PIL.size im.
Proof. reflexivity. Qed.

Lemma new_size {P} (w h : Z) (fill : P) (im : Image P) :
  PIL.new w h fill = Ok im -> PIL.size im = (w, h) /\ (0 <= w)%Z /\ (0 <= h)%Z.
Proof.
  unfold PIL.new. destruct (Z.ltb_spec w 0); [discriminate|].
  destruct (Z.ltb_spec h 0); [discriminate|]. simpl.
  intros E. injection E as <-. auto.
Qed.

Lemma rectangle_size {P} (box : Z * Z * Z * Z) (ink : P) (im im' : Image P) :
  PIL.rectangle box ink im = Ok im' -> PIL.size im' = PIL.size im.
Proof.
  unfold PIL.rectangle. destruct (PIL.bad_box box); [discriminate|].
  intros E. now injection E as <-.
Qed.

Lemma ellipse_size {P} (pil : Pillow) (box : Z * Z * Z * Z) (ink : P)
    (im im' : Image P) :
  PIL.ellipse pil box ink im = Ok im' -> PIL.size im' = PIL.size im.
Proof.
  unfold PIL.ellipse. destruct (PIL.bad_box box); [discriminate|].
  intros E. now injection E as <-.
Qed.

Lemma alpha_composite_size (dst src im : Image RGBA) :
  PIL.alpha_composite dst src = Ok im -> PIL.size im = PIL.size dst.
Proof.
  unfold PIL.alpha_composite.
  destruct ((width dst =? width src)%Z && (height dst =? height src)%Z);
    [|discriminate].
  intros E. now injection E as <-.
Qed.

Lemma gradient_of_size (kind : string) (w h : Z) (colors : list string)
    (image image' : Image RGB) :
  gradient_of kind w h colors image = Ok image' ->
  PIL.size image' = PIL.size image.
Proof.
  unfold gradient_of.
  destruct (String.eqb kind "horizontal");
    [|destruct (String.eqb kind "vertical");
      [|destruct (String.eqb kind "diagonal");
        [|destruct (String.eqb kind "radial")]]].
  - apply (for_r_invariant (fun im => PIL.size im = PIL.size image));
      [|reflexivity].
    intros x s s' Hs E.
    apply rbind_inv in E. destruct E as (ratio & _ & E).
    apply rbind_inv in E. destruct E as (color & _ & E).
    injection E as <-. exact Hs.
  - apply (for_r_invariant (fun im => PIL.size im = PIL.size image));
      [|reflexivity].
    intros x s s' Hs E.
    apply rbind_inv in E. destruct E as (ratio & _ & E).
    apply rbind_inv in E. destruct E as (color & _ & E).
    injection E as <-. exact Hs.
  - apply (for_r_invariant (fun im => PIL.size im = PIL.size image));
      [|reflexivity].
    intros y s s' Hs.
    apply (for_r_invariant (fun im => PIL.size im = PIL.size image));
      [|exact Hs].
    clear s s' Hs. intros x s s' Hs E.
    apply rbind_inv in E. destruct E as (ratio & _ & E).
    apply rbind_inv in E. destruct E as (color & _ & E).
    injection E as <-. exact Hs.
  - intros E. apply rbind_inv in E. destruct E as (max_distance & _ & E).
    revert E.
    apply (for_r_invariant (fun im => PIL.size im = PIL.size image));
      [|reflexivity].
    intros y s s' Hs.
    apply (for_r_invariant (fun im => PIL.size im = PIL.size image));
      [|exact Hs].
    clear s s' Hs. intros x s s' Hs E.
    apply rbind_inv in E. destruct E as (distance & _ & E).
    apply rbind_inv in E. destruct E as (q & _ & E).
    apply rbind_inv in E. destruct E as (color & _ & E).
    injection E as <-. exact Hs.
  - intros E. now injection E as <-.
Qed.

Lemma generate_gradient_background_size (w h : Z) (colors : list string)
    (world world' : World) (image : Image RGB) :
  generate_gradient_background w h colors world = (Ok image, world') ->
  PIL.size image = (w, h).
Proof.
  unfold generate_gradient_background. intros H.
  run_inv H. lift_inv E. apply new_size in E0. destruct E0 as [Es _].
  run_inv H. lift_inv H. apply gradient_of_size in E0.
  rewrite E0. exact Es.
Qed.

(** ** Loops that paint *)

Lemma range_In (n k : Z) : In k (range n) <-> (0 <= k < n)%Z.
Proof.
  unfold range. rewrite in_map_iff. split.
  - intros (i & <- & Hi). apply in_seq in Hi. lia.
  - intros Hk. exists (Z.to_nat k). split; [lia|]. apply in_seq. lia.
Qed.

Lemma row_major_In (w h x y : Z) :
  In (x, y) (row_major w h) <-> (0 <= x < w)%Z /\ (0 <= y < h)%Z.
Proof.
  unfold row_major. rewrite in_flat_map. split.
  - intros (y' & Hy & Hx). apply in_map_iff in Hx.
    destruct Hx as (x' & E & Hx). injection E as -> ->.
    apply range_In in Hx, Hy. auto.
  - intros [Hx Hy]. exists y. split; [now apply range_In|].
    apply in_map_iff. exists x. split; [reflexivity | now apply range_In].
Qed.

(** A nested loop is one loop over the coordinates in row-major order. *)
Lemma for_r_app {A S} (xs ys : list A) (body : A -> S -> result S) (s : S) :
  for_r (xs ++ ys) body s = rbind (for_r xs body s) (for_r ys body).
Proof.
  revert s. induction xs as [|x xs IH]; intros s; simpl; [reflexivity|].
  destruct (body x s) as [s1 | e]; simpl; [apply IH | reflexivity].
Qed.

Lemma for_r_map {A B S} (f : A -> B) (xs : list A) (body : B -> S -> result S)
    (s : S) :
  for_r (map f xs) body s = for_r xs (fun x => body (f x)) s.
Proof.
  revert s. induction xs as [|x xs IH]; intros s; simpl; [reflexivity|].
  destruct (body (f x) s) as [s1 | e]; simpl; [apply IH | reflexivity].
Qed.

Lemma for_r_nested {S} (w h : Z) (body : Z * Z -> S -> result S) (s : S) :
  for_r (range h) (fun y s => for_r (range w) (fun x => body (x, y)) s) s
  = for_r (row_major w h) body s.
Proof.
  unfold row_major. revert s.
  induction (range h) as [|y ys IH]; intros s; simpl; [reflexivity|].
  rewrite for_r_app, for_r_map.
  destruct (for_r (range w) (fun x => body (x, y)) s) as [s1 | e]; simpl;
    [apply IH | reflexivity].
Qed.

(** When every round paints, the loop is a fold of [paint]. *)
Lemma for_r_paint {K} (xs : list K) (body : K -> Image RGB -> result (Image RGB))
    (cover : K -> Z -> Z -> bool) (ink : K -> RGB) (s : Image RGB) :
  (forall k im, In k xs -> body k im = Ok (PIL.paint (cover k) (ink k) im)) ->
  for_r xs body s
  = Ok (fold_left (fun im k => PIL.paint (cover k) (ink k) im) xs s).
Proof.
  revert s. induction xs as [|k xs IH]; intros s Hb; simpl; [reflexivity|].
  rewrite Hb by now left. simpl. apply IH.
  intros k' im Hk'. apply Hb. now right.
Qed.

Lemma fold_paint_size {K} (xs : list K) (cover : K -> Z -> Z -> bool)
    (ink : K -> RGB) (s : Image RGB) :
  PIL.size (fold_left (fun im k => PIL.paint (cover k) (ink k) im) xs s)
  = PIL.size s.
Proof.
  revert s. induction xs as [|k xs IH]; intros s; simpl; [reflexivity|].
  now rewrite IH.
Qed.

(** A pixel covered by the rounds of a single index ends with that
    index's ink. *)
Lemma fold_paint_pixel {K} (xs : list K) (cover : K -> Z -> Z -> bool)
    (ink : K -> RGB) (s : Image RGB) (x y : Z) (k : K) :
  PIL.inside s x y = true ->
  In k xs -> cover k x y = true ->
  (forall k', In k' xs -> cover k' x y = true -> k' = k) ->
  pixels (fold_left (fun im k => PIL.paint (cover k) (ink k) im) xs s) x y
  = ink k.
Proof.
  intros Hin. revert s Hin.
  assert (Hkeep : forall (ys : list K) (s : Image RGB),
             (forall k', In k' ys -> cover k' x y = true -> k' = k) ->
             pixels s x y = ink k ->
             pixels (fold_left (fun im k => PIL.paint (cover k) (ink k) im) ys s)
               x y = ink k).
  { induction ys as [|k0 ys IH]; intros s Hu Hs; simpl; [exact Hs|].
    apply IH; [intros k' Hk'; apply Hu; now right|].
    cbn [PIL.paint pixels].
    destruct (PIL.inside s x y && cover k0 x y) eqn:Hc; [|exact Hs].
    apply andb_true_iff in Hc. destruct Hc as [_ Hc].
    now rewrite (Hu k0 (or_introl eq_refl) Hc). }
  induction xs as [|k0 xs IH]; intros s Hin Hk Hc Hu; [destruct Hk|].
  simpl. destruct Hk as [-> | Hk].
  - apply Hkeep; [intros k' Hk'; apply Hu; now right|].
    cbn [PIL.paint pixels]. now rewrite Hin, Hc.
  - apply IH; auto. intros k' Hk'. apply Hu. now right.
Qed.

(** ** The pixels of a gradient *)

Lemma blend_colors_ok (c0 c1 : string) (ratio : Q) :
  valid_hex_color c0 = true -> valid_hex_color c1 = true ->
  exists rgb, blend_colors c0 c1 ratio = Ok rgb.
Proof.
  intros V0 V1.
  destruct (valid_hex_channels c0 V0) as (r0 & g0 & b0 & E0 & _).
  destruct (valid_hex_channels c1 V1) as (r1 & g1 & b1 & E1 & _).
  unfold blend_colors. rewrite E0, E1. simpl. eexists. reflexivity.
Qed.

Lemma int_truediv_ok (x w : Z) :
  (w <> 0)%Z -> exists r, PyFloat.int_truediv x w = Ok r.
Proof.
  intros Hw. unfold PyFloat.int_truediv.
  destruct (Z.eqb_spec w 0); [contradiction|]. eexists. reflexivity.
Qed.

Lemma gradient_ratio_ok (kind : string) (w h x y : Z) :
  (0 < w)%Z -> (0 < h)%Z -> (0 <= x < w)%Z -> (0 <= y < h)%Z ->
  (kind = "radial" -> (1 < w \/ 1 < h)%Z) ->
  In kind gradient_kinds ->
  exists ratio, gradient_ratio kind w h x y = Ok ratio.
Proof.
  intros Hw Hh Hx Hy Hrad Hkind. unfold gradient_ratio.
  destruct Hkind as [<- | [<- | [<- | [<- | []]]]]; cbn [String.eqb Ascii.eqb Bool.eqb].
  - apply int_truediv_ok. lia.
  - apply int_truediv_ok. lia.
  - apply int_truediv_ok. lia.
  - destruct (sqrt_int_nonzero ((w / 2) ^ 2 + (h / 2) ^ 2)) as (m & Em & Hm).
    { specialize (Hrad eq_refl).
      assert (0 <= w / 2)%Z by (apply Z.div_pos; lia).
      assert (0 <= h / 2)%Z by (apply Z.div_pos; lia).
      assert (1 <= w / 2 \/ 1 <= h / 2)%Z.
      { destruct Hrad; [left | right]; apply Z.div_le_lower_bound; lia. }
      nia. }
    destruct (sqrt_int_ok ((x - w / 2) ^ 2 + (y - h / 2) ^ 2)) as (d & Ed);
      [nia|].
    rewrite Em, Ed. cbn [rbind]. unfold PyFloat.div. rewrite Hm.
    eexists. reflexivity.
Qed.

(** For every kind, size and pair of valid colours but the radial gradient
    on a single pixel, [gradient_of] paints every pixel with the blend of
    the two colours at the ratio of its kind. *)
Theorem gradient_of_pixels (kind : string) (w h : Z) (c0 c1 : string)
    (image : Image RGB) :
  In kind gradient_kinds ->
  (0 < w)%Z -> (0 < h)%Z ->
  valid_hex_color c0 = true -> valid_hex_color c1 = true ->
  PIL.size image = (w, h) ->
  (kind = "radial" -> (1 < w \/ 1 < h)%Z) ->
  exists image',
    gradient_of kind w h [c0; c1] image = Ok image'
    /\ PIL.size image' = (w, h)
    /\ forall x y,
         (0 <= x < w)%Z -> (0 <= y < h)%Z ->
         exists ratio rgb,
           gradient_ratio kind w h x y = Ok ratio
           /\ blend_colors c0 c1 ratio = Ok rgb
           /\ PIL.getpixel image' x y = Some rgb.
Proof.
  intros Hkind Hw Hh V0 V1 Hsize Hrad.
  injection Hsize as Hiw Hih.
  (* the ink of a pixel, as a total function *)
  assert (Hink : exists ink : Z * Z -> RGB,
             forall x y, (0 <= x < w)%Z -> (0 <= y < h)%Z ->
               exists ratio,
                 gradient_ratio kind w h x y = Ok ratio
                 /\ blend_colors c0 c1 ratio = Ok (ink (x, y))).
  { exists (fun p =>
              match gradient_ratio kind w h (fst p) (snd p) with
              | Ok ratio =>
                  match blend_colors c0 c1 ratio with
                  | Ok rgb => rgb
                  | Raise _ => (0, 0, 0)%Z
                  end
              | Raise _ => (0, 0, 0)%Z
              end).
    intros x y Hx Hy. cbn [fst snd].
    destruct (gradient_ratio_ok kind w h x y Hw Hh Hx Hy Hrad Hkind)
      as (ratio & ->).
    exists ratio. split; [reflexivity|].
    destruct (blend_colors_ok c0 c1 ratio V0 V1) as (rgb & ->). reflexivity. }
  destruct Hink as (ink & Hink).
  assert (Hinside : forall x y, (0 <= x < w)%Z -> (0 <= y < h)%Z ->
                      PIL.inside image x y = true).
  { intros x y Hx Hy. unfold PIL.inside. rewrite Hiw, Hih.
    repeat (apply andb_true_iff; split); lia. }
  assert (Hget : forall (im : Image RGB) x y rgb,
             PIL.size im = (w, h) -> (0 <= x < w)%Z -> (0 <= y < h)%Z ->
             pixels im x y = rgb -> PIL.getpixel im x y = Some rgb).
  { intros im x y rgb Hs Hx Hy <-. injection Hs as Hsw Hsh.
    unfold PIL.getpixel, PIL.inside. rewrite Hsw, Hsh.
    replace ((0 <=? x)%Z && (x <? w)%Z && (0 <=? y)%Z && (y <? h)%Z) with true;
      [reflexivity|].
    symmetry. repeat (apply andb_true_iff; split); lia. }
  unfold gradient_of, blend_first_two. cbn [nth_r nth_error of_option rbind].
  destruct Hkind as [<- | [<- | [<- | [<- | []]]]];
    cbn [String.eqb Ascii.eqb Bool.eqb].
  - (* horizontal: column x is a line from (x, 0) to (x, h) *)
    rewrite (for_r_paint (range w) _
               (fun k => PIL.line_cover (k, 0%Z) (k, h)) (fun k => ink (k, 0%Z))).
    + eexists. split; [reflexivity|]. split.
      * rewrite fold_paint_size. now rewrite <- Hiw, <- Hih.
      * intros x y Hx Hy. destruct (Hink x 0%Z Hx ltac:(lia)) as (ratio & Er & Eb).
        exists ratio, (ink (x, 0%Z)). split; [exact Er|]. split; [exact Eb|].
        apply Hget; auto.
        { rewrite fold_paint_size. now rewrite <- Hiw, <- Hih. }
        apply (fold_paint_pixel (range w)
                 (fun k => PIL.line_cover (k, 0%Z) (k, h))
                 (fun k => ink (k, 0%Z)) image x y x); auto.
        -- now apply range_In.
        -- unfold PIL.line_cover, PIL.between. rewrite Z.sub_diag. simpl.
           rewrite Z.eqb_refl. simpl. apply andb_true_iff; split; lia.
        -- intros k' _. unfold PIL.line_cover. rewrite Z.sub_diag. simpl.
           rewrite andb_true_iff, Z.eqb_eq. intros [-> _]. reflexivity.
    + intros k im Hk. apply range_In in Hk.
      destruct (Hink k 0%Z Hk ltac:(lia)) as (ratio & Er & Eb).
      unfold gradient_ratio in Er. cbn [String.eqb Ascii.eqb Bool.eqb] in Er.
      rewrite Er. cbn [rbind]. rewrite Eb. reflexivity.
  - (* vertical: row y is a line from (0, y) to (w, y) *)
    rewrite (for_r_paint (range h) _
               (fun k => PIL.line_cover (0%Z, k) (w, k)) (fun k => ink (0%Z, k))).
    + eexists. split; [reflexivity|]. split.
      * rewrite fold_paint_size. now rewrite <- Hiw, <- Hih.
      * intros x y Hx Hy. destruct (Hink 0%Z y ltac:(lia) Hy) as (ratio & Er & Eb).
        exists ratio, (ink (0%Z, y)). split; [exact Er|]. split; [exact Eb|].
        apply Hget; auto.
        { rewrite fold_paint_size. now rewrite <- Hiw, <- Hih. }
        apply (fold_paint_pixel (range h)
                 (fun k => PIL.line_cover (0%Z, k) (w, k))
                 (fun k => ink (0%Z, k)) image x y y); auto.
        -- now apply range_In.
        -- unfold PIL.line_cover, PIL.between. rewrite Z.sub_diag.
           rewrite Z.sub_0_r. destruct (Z.eqb_spec (Z.abs w) 0); [lia|].
           simpl. rewrite Z.eqb_refl. simpl. apply andb_true_iff; split; lia.
        -- intros k' _. unfold PIL.line_cover. rewrite Z.sub_diag.
           rewrite Z.sub_0_r. destruct (Z.eqb_spec (Z.abs w) 0); [lia|].
           simpl. rewrite andb_true_iff, Z.eqb_eq. intros [-> _]. reflexivity.
    + intros k im Hk. apply range_In in Hk.
      destruct (Hink 0%Z k ltac:(lia) Hk) as (ratio & Er & Eb).
      unfold gradient_ratio in Er. cbn [String.eqb Ascii.eqb Bool.eqb] in Er.
      rewrite Er. cbn [rbind]. rewrite Eb. reflexivity.
  - (* diagonal: one point for each pixel *)
    rewrite (for_r_nested w h
               (fun p image =>
                  rbind (PyFloat.int_truediv (fst p + snd p) (w + h))
                    (fun ratio =>
                       rbind (blend_colors c0 c1 ratio)
                         (fun color => Ok (PIL.point p color image))))).
    rewrite (for_r_paint (row_major w h) _ PIL.point_cover ink).
    + eexists. split; [reflexivity|]. split.
      * rewrite fold_paint_size. now rewrite <- Hiw, <- Hih.
      * intros x y Hx Hy. destruct (Hink x y Hx Hy) as (ratio & Er & Eb).
        exists ratio, (ink (x, y)). split; [exact Er|]. split; [exact Eb|].
        apply Hget; auto.
        { rewrite fold_paint_size. now rewrite <- Hiw, <- Hih. }
        apply (fold_paint_pixel (row_major w h) PIL.point_cover ink
                 image x y (x, y)); auto.
        -- now apply row_major_In.
        -- unfold PIL.point_cover. simpl. now rewrite !Z.eqb_refl.
        -- intros [x' y'] _. unfold PIL.point_cover. simpl.
           rewrite andb_true_iff, !Z.eqb_eq. intros [-> ->]. reflexivity.
    + intros [x y] im Hk. apply row_major_In in Hk. destruct Hk as [Hx Hy].
      destruct (Hink x y Hx Hy) as (ratio & Er & Eb).
      unfold gradient_ratio in Er. cbn [String.eqb Ascii.eqb Bool.eqb] in Er.
      cbn [fst snd]. rewrite Er. cbn [rbind]. rewrite Eb. reflexivity.
  - (* radial: one point for each pixel, the largest distance taken once *)
    assert (Hm : exists m, sqrt_int ((w / 2) ^ 2 + (h / 2) ^ 2) = Ok m).
    { destruct (Hink 0%Z 0%Z ltac:(lia) ltac:(lia)) as (ratio & Er & _).
      unfold gradient_ratio in Er. cbn [String.eqb Ascii.eqb Bool.eqb] in Er.
      apply rbind_inv in Er. destruct Er as (m & Em & _). now exists m. }
    destruct Hm as (m & Em). rewrite Em. cbn [rbind].
    rewrite (for_r_nested w h
               (fun p image =>
                  rbind (sqrt_int ((fst p - w / 2) ^ 2 + (snd p - h / 2) ^ 2))
                    (fun distance =>
                       rbind (PyFloat.div distance m)
                         (fun q =>
                            rbind (blend_colors c0 c1 (PyFloat.min q 1))
                              (fun color => Ok (PIL.point p color image)))))).
    rewrite (for_r_paint (row_major w h) _ PIL.point_cover ink).
    + eexists. split; [reflexivity|]. split.
      * rewrite fold_paint_size. now rewrite <- Hiw, <- Hih.
      * intros x y Hx Hy. destruct (Hink x y Hx Hy) as (ratio & Er & Eb).
        exists ratio, (ink (x, y)). split; [exact Er|]. split; [exact Eb|].
        apply Hget; auto.
        { rewrite fold_paint_size. now rewrite <- Hiw, <- Hih. }
        apply (fold_paint_pixel (row_major w h) PIL.point_cover ink
                 image x y (x, y)); auto.
        -- now apply row_major_In.
        -- unfold PIL.point_cover. simpl. now rewrite !Z.eqb_refl.
        -- intros [x' y'] _. unfold PIL.point_cover. simpl.
           rewrite andb_true_iff, !Z.eqb_eq. intros [-> ->]. reflexivity.
    + intros [x y] im Hk. apply row_major_In in Hk. destruct Hk as [Hx Hy].
      destruct (Hink x y Hx Hy) as (ratio & Er & Eb).
      unfold gradient_ratio in Er. cbn [String.eqb Ascii.eqb Bool.eqb] in Er.
      rewrite Em in Er. cbn [rbind] in Er.
      apply rbind_inv in Er. destruct Er as (d & Ed & Er).
      apply rbind_inv in Er. destruct Er as (q & Eq & Er).
      injection Er as <-.
      cbn [fst snd]. rewrite Ed. cbn [rbind]. rewrite Eq. cbn [rbind].
      rewrite Eb. reflexivity.
Qed.

(** The run of [generate_gradient_background] behind the next theorem. *)
Lemma gradient_background_painted (w h : Z) (c0 c1 kind : string)
    (world : World) :
  (0 < w)%Z -> (0 < h)%Z ->
  valid_hex_color c0 = true -> valid_hex_color c1 = true ->
  fst (random.choice gradient_kinds world) = Ok kind ->
  (kind = "radial" -> (1 < w \/ 1 < h)%Z) ->
  exists image world',
    generate_gradient_background w h [c0; c1] world = (Ok image, world')
    /\ PIL.size image = (w, h)
    /\ forall x y,
         (0 <= x < w)%Z -> (0 <= y < h)%Z ->
         exists ratio rgb,
           gradient_ratio kind w h x y = Ok ratio
           /\ blend_colors c0 c1 ratio = Ok rgb
           /\ PIL.getpixel image x y = Some rgb.
Proof.
  intros Hw Hh V0 V1 Hkind Hrad.
  destruct (random.choice gradient_kinds world) as [r w1] eqn:Ec.
  simpl in Hkind. subst r.
  assert (Hin : In kind gradient_kinds) by (apply choice_inv in Ec; tauto).
  destruct (gradient_of_pixels kind w h c0 c1 (mkImage w h (fun _ _ => (0, 0, 0)%Z))
              Hin Hw Hh V0 V1 eq_refl Hrad) as (image & Eg & Hs & Hp).
  exists image, w1. split; [|auto].
  unfold generate_gradient_background, PIL.new.
  destruct (Z.ltb_spec w 0); [lia|]. destruct (Z.ltb_spec h 0); [lia|].
  cbn [orb]. rewrite bind_lift, (bind_ok _ _ _ _ _ Ec). unfold lift.
  now rewrite Eg.
Qed.

(** X12.  For positive sizes within Pillow's pixel limit and two valid
    colours,
    [generate_gradient_background] returns a raster of the requested size
    whose pixel [(x, y)] is [blend_colors(colors[0], colors[1], ratio)] at
    the ratio of the kind drawn: [x / width], [y / height],
    [(x + y) / (width + height)], or the distance to the centre over the
    distance of the corner, capped at 1.  The radial kind needs a size other
    than one pixel. *)
Theorem generate_gradient_background_pixels (w h : Z) (c0 c1 kind : string)
    (world : World) :
  (0 < w)%Z -> (0 < h)%Z -> modest_size w h ->
  valid_hex_color c0 = true -> valid_hex_color c1 = true ->
  fst (random.choice gradient_kinds world) = Ok kind ->
  (kind = "radial" -> (1 < w \/ 1 < h)%Z) ->
  exists image world',
    generate_gradient_background w h [c0; c1] world = (Ok image, world')
    /\ PIL.size image = (w, h)
    /\ forall x y,
         (0 <= x < w)%Z -> (0 <= y < h)%Z ->
         exists ratio rgb,
           gradient_ratio kind w h x y = Ok ratio
           /\ blend_colors c0 c1 ratio = Ok rgb
           /\ PIL.getpixel image x y = Some rgb.
Proof.
  intros Hw Hh _. exact (gradient_background_painted w h c0 c1 kind world Hw Hh).
Qed.

Section GeneratorFacts.

Variable pil : Pillow.

(** C4.  A prompt that is empty or all whitespace makes [generate_image]
    return [None] after printing the empty-prompt line and nothing else: no
    random draw, no reading of the clock, no file written. *)
Theorem generate_image_blank_prompt (self : LocalImageGenerator)
    (prompt : string) (width height : Z) (style : string) (w : World) :
  blank prompt ->
  generate_image pil self prompt width height style w
  = (Ok None, logged w MsgEmptyPrompt).
Proof.
  intros Hb. unfold generate_image.
  rewrite (strip_blank prompt Hb). simpl. now rewrite orb_true_r.
Qed.

(** The caption is made of the first three words of the prompt. *)
Lemma display_text_words (prompt : string) (ws : list string) :
  words_of prompt ws ->
  display_text prompt = PyStr.upper (PyStr.join " " (firstn 3 ws)).
Proof. intros H. unfold display_text. now rewrite (split_words_of _ _ H). Qed.

(** C8.  When [ws] are the whitespace-separated words of the prompt,
    [add_text_overlay] writes the first three of them (all of them when
    there are fewer), joined by single spaces and upper-cased: once in black
    as a shadow, once in white. *)
Theorem add_text_overlay_caption (image : Image RGB) (prompt : string)
    (ws : list string) (w : World) :
  words_of prompt ws ->
  let caption := PyStr.upper (PyStr.join " " (firstn 3 ws)) in
  display_text prompt = caption
  /\ exists x y : Z,
       fst (add_text_overlay pil image prompt w)
       = Ok (PIL.text pil (x, y) caption (255, 255, 255)%Z (load_font pil)
               (PIL.text pil (x + 3, y + 3)%Z caption (0, 0, 0)%Z
                  (load_font pil) image)).
Proof.
  intros Hws caption. pose proof (display_text_words prompt ws Hws) as E.
  split; [exact E|]. unfold add_text_overlay. rewrite E. fold caption.
  destruct (text_bbox pil (load_font pil) caption) as [[[bx0 by0] bx1] by1].
  set (positions := text_positions _ _ _ _).
  destruct (choice_ok positions w ltac:(discriminate)) as ([x y] & _ & Ec).
  exists x, y. rewrite (bind_ok _ _ _ _ _ Ec). reflexivity.
Qed.

(** ** The pipeline never lets an exception escape *)

Lemma max_from_in {A} (key : A -> nat) (items : list A) (best : A) :
  In (max_from key best items) (best :: items).
Proof.
  revert best. induction items as [|x items IH]; intros best; simpl.
  - now left.
  - destruct (key best <? key x)%nat.
    + right. apply IH.
    + destruct (IH best) as [H | H]; [now left | right; now right].
Qed.

Lemma catalog_has_theme (t : string) :
  In t (keys theme_keywords) \/ In t (keys catalog) ->
  exists colors, dict_get catalog t = Some colors.
Proof.
  intros [H | H]; simpl in H;
    repeat (destruct H as [<- | H]; [eexists; reflexivity|]); destruct H.
Qed.

Lemma detect_theme_in_catalog (dir prompt : string) (w : World) :
  exists t w' colors,
    detect_theme (mkGenerator dir catalog) prompt w = (Ok t, w')
    /\ dict_get catalog t = Some colors.
Proof.
  unfold detect_theme. rewrite count_scores_filter.
  destruct (List.filter positive (all_scores theme_keywords (PyStr.lower prompt)))
    as [|first others] eqn:E.
  - simpl. destruct (choice_ok (keys catalog) w ltac:(discriminate))
      as (t & Hin & Ec).
    destruct (catalog_has_theme t (or_intror Hin)) as [colors Hc].
    exists t. eexists. exists colors. split; [exact Ec | exact Hc].
  - pose proof (max_from_in snd others first) as Hin.
    rewrite <- E in Hin. apply filter_In in Hin. destruct Hin as [Hin _].
    destruct (max_from snd first others) as [t n] eqn:Em.
    apply all_scores_in in Hin. destruct Hin as (kws & Hin & _).
    assert (Hk : In t (keys theme_keywords))
      by (unfold keys; apply in_map_iff; exists (t, kws); auto).
    destruct (catalog_has_theme t (or_introl Hk)) as [colors Hc].
    exists t, w, colors. split; [reflexivity | exact Hc].
Qed.






(** ** The raster keeps its size through the pipeline *)

Lemma pattern_round_size (kind : string) (w h : Z) (colors : list string)
    (image image' : Image RGB) (world world' : World) :
  pattern_round pil kind w h colors image world = (Ok image', world') ->
  PIL.size image' = PIL.size image.
Proof.
  unfold pattern_round. intros H.
  run_inv H. run_inv H. run_inv H. run_inv H. run_inv H.
  apply ret_inv in H. destruct H as [-> _].
  lift_inv E3. apply alpha_composite_size in E4. exact E4.
Qed.

Lemma add_geometric_patterns_size (colors : list string) :
  preserves_size (fun image => add_geometric_patterns pil image colors).
Proof.
  intros image w image' w' H. unfold add_geometric_patterns in H.
  run_inv H. run_inv H. revert H.
  apply (for_m_invariant (fun im => PIL.size im = PIL.size image));
    [|reflexivity].
  intros x s w2 s' w2' Hs H. apply pattern_round_size in H. congruence.
Qed.

Lemma add_text_overlay_size (prompt : string) :
  preserves_size (fun image => add_text_overlay pil image prompt).
Proof.
  intros image w image' w' H. unfold add_text_overlay in H.
  destruct (text_bbox pil (load_font pil) (display_text prompt))
    as [[[bx0 by0] bx1] by1].
  run_inv H. destruct a as [x y]. run_inv H. run_inv H.
  apply ret_inv in H. destruct H as [-> _]. reflexivity.
Qed.

Lemma apply_artistic_effects_size : preserves_size (apply_artistic_effects pil).
Proof.
  intros image w image' w' H. unfold apply_artistic_effects in H.
  run_inv H. apply ret_inv in H. destruct H as [-> _]. reflexivity.
Qed.

Lemma abstract_shape_size (w h : Z) (colors : list string)
    (image image' : Image RGB) (world world' : World) :
  abstract_shape pil w h colors image world = (Ok image', world') ->
  PIL.size image' = PIL.size image.
Proof.
  unfold abstract_shape. intros H. run_inv H. run_inv H.
  destruct (String.eqb a "ellipse");
    [|destruct (String.eqb a "rectangle");
      [|destruct (String.eqb a "polygon")]].
  - run_inv H. run_inv H. lift_inv H. now apply ellipse_size in E3.
  - run_inv H. run_inv H. lift_inv H. now apply rectangle_size in E3.
  - run_inv H. run_inv H. run_inv H.
    apply ret_inv in H. destruct H as [-> _]. reflexivity.
  - apply ret_inv in H. destruct H as [-> _]. reflexivity.
Qed.

Lemma create_abstract_art_size (w h : Z) (colors : list string)
    (image : Image RGB) (world world' : World) :
  create_abstract_art pil w h colors world = (Ok image, world') ->
  PIL.size image = (w, h).
Proof.
  unfold create_abstract_art. intros H.
  run_inv H. run_inv H. lift_inv E0. apply new_size in E1.
  destruct E1 as [Es _]. run_inv H. revert H.
  apply (for_m_invariant (fun im => PIL.size im = (w, h))); [|exact Es].
  intros x s w2 s' w2' Hs H. apply abstract_shape_size in H. congruence.
Qed.

Lemma base_image_size (style : string) (w h : Z) (colors : list string)
    (image : Image RGB) (world world' : World) :
  base_image pil style w h colors world = (Ok (Some image), world') ->
  PIL.size image = (w, h).
Proof.
  unfold base_image. intros H.
  destruct (String.eqb style "gradient");
    [|destruct (String.eqb style "abstract");
      [|destruct (String.eqb style "geometric")]].
  - run_inv H. apply ret_inv in H. destruct H as [H _]. injection H as ->.
    now apply generate_gradient_background_size in E.
  - run_inv H. apply ret_inv in H. destruct H as [H _]. injection H as ->.
    now apply create_abstract_art_size in E.
  - run_inv H. run_inv H. run_inv H. run_inv H.
    apply ret_inv in H. destruct H as [H _]. injection H as ->.
    lift_inv E1. apply new_size in E3. destruct E3 as [Es _].
    apply add_geometric_patterns_size in E2. congruence.
  - apply ret_inv in H. destruct H as [H _]. discriminate.
Qed.

Lemma render_and_save_saved (self : LocalImageGenerator) (prompt : string)
    (w h : Z) (style theme : string) (colors : list string)
    (world world' : World) (path : string) :
  render_and_save pil self prompt w h style theme colors world
  = (Ok (Some path), world') ->
  exists image,
    saved (disk world') path = Some image /\ PIL.size image = (w, h).
Proof.
  unfold render_and_save. intros H.
  run_inv H. run_inv H. run_inv H. run_inv H. run_inv H. run_inv H.
  rewrite !bind_print in H. apply ret_inv in H. destruct H as [H ->].
  injection H as ->.
  destruct a as [image0|]; [|discriminate].
  apply ret_inv in E0. destruct E0 as [-> ->].
  apply base_image_size in E. apply add_text_overlay_size in E1.
  apply apply_artistic_effects_size in E2.
  unfold save in E4. destruct (writable w4 _); [|discriminate].
  destruct (PIL.empty a2); [discriminate|].
  inversion E4; subst; clear E4. exists a2. split.
  - cbn [logged disk saved]. now rewrite String.eqb_refl.
  - congruence.
Qed.

(** C9.  Each stage of the pipeline returns a raster of the size it was
    given, the base image of every style has the requested size, and the
    raster that [generate_image] saves under the path it returns is exactly
    [width] by [height]. *)
Theorem generate_image_keeps_size (self : LocalImageGenerator)
    (prompt : string) (width height : Z) (style : string) :
  (0 < width)%Z -> (0 < height)%Z ->
  (forall colors world world' image,
      base_image pil style width height colors world = (Ok (Some image), world') ->
      PIL.size image = (width, height))
  /\ (forall colors,
        preserves_size (fun image => add_geometric_patterns pil image colors))
  /\ preserves_size (fun image => add_text_overlay pil image prompt)
  /\ preserves_size (apply_artistic_effects pil)
  /\ (forall world world' path,
        generate_image pil self prompt width height style world
        = (Ok (Some path), world') ->
        exists image,
          saved (disk world') path = Some image
          /\ PIL.size image = (width, height)).
Proof.
  intros _ _. split; [|split; [|split; [|split]]].
  - intros colors world world' image. apply base_image_size.
  - apply add_geometric_patterns_size.
  - apply add_text_overlay_size.
  - apply apply_artistic_effects_size.
  - intros world world' path H. unfold generate_image in H.
    destruct (PyStr.is_empty prompt || PyStr.is_empty (PyStr.strip prompt)).
    + rewrite bind_print in H. apply ret_inv in H. destruct H as [H _].
      discriminate.
    + rewrite bind_print in H. run_inv H. run_inv H.
      rewrite bind_print in H. run_inv H. rewrite bind_print in H.
      unfold try_except in H.
      destruct (render_and_save pil self (PyStr.strip prompt) width height
                  a1 a a0 _) as [[r | e] w3] eqn:Er.
      * injection H as -> ->. now apply render_and_save_saved in Er.
      * rewrite bind_print in H. apply ret_inv in H. destruct H as [H _].
        discriminate.
Qed.

(** ** Pattern kinds without a drawing rule *)

Lemma over_transparent (dst : RGBA) (r g b : Z) :
  PIL.over dst (r, g, b, 0%Z) = dst.
Proof. destruct dst as [[[dr dg] db] da]. reflexivity. Qed.

Lemma same_pixels_same_image {P} (a b : Image P) :
  width a = width b -> height a = height b ->
  (forall x y, pixels a x y = pixels b x y) -> same_image a b.
Proof.
  intros Hw Hh Hp. split; [exact Hw|]. split; [exact Hh|].
  intros x y. unfold PIL.getpixel, PIL.inside. now rewrite Hw, Hh, Hp.
Qed.

Lemma draw_pattern_undrawn (kind : string) (w h : Z) (color : string)
    (alpha : Z) (overlay : Image RGBA) :
  undrawn kind ->
  draw_pattern pil kind w h color alpha overlay = ret overlay.
Proof. intros [H1 H2]. unfold draw_pattern. now rewrite H1, H2. Qed.

Lemma pattern_round_undrawn (kind : string) (w h : Z) (colors : list string)
    (image image' : Image RGB) (world world' : World) :
  undrawn kind ->
  pattern_round pil kind w h colors image world = (Ok image', world') ->
  width image' = width image /\ height image' = height image
  /\ forall x y, pixels image' x y = pixels image x y.
Proof.
  intros Hk H. unfold pattern_round in H.
  run_inv H. run_inv H. run_inv H.
  rewrite draw_pattern_undrawn, bind_ret in H by exact Hk. run_inv H.
  apply ret_inv in H. destruct H as [-> _].
  lift_inv E1. lift_inv E2.
  unfold PIL.new in E3. destruct ((w <? 0)%Z || (h <? 0)%Z); [discriminate|].
  injection E3 as <-.
  unfold PIL.alpha_composite in E1. cbn [width height pixels PIL.to_rgba] in E1.
  destruct ((width image =? w)%Z && (height image =? h)%Z); [|discriminate].
  injection E1 as <-. split; [reflexivity|]. split; [reflexivity|].
  intros x y. cbn [pixels PIL.to_rgb]. rewrite over_transparent.
  now destruct (pixels image x y) as [[r g] b].
Qed.

Lemma pattern_round_undrawn_ok (kind : string) (colors : list string)
    (image : Image RGB) (world : World) :
  undrawn kind -> colors <> [] ->
  (0 <= width image)%Z -> (0 <= height image)%Z ->
  exists image' world',
    pattern_round pil kind (width image) (height image) colors image world
    = (Ok image', world').
Proof.
  intros Hk Hc Hw Hh. unfold pattern_round.
  destruct (choice_ok colors world Hc) as (color & _ & Ec).
  rewrite (bind_ok _ _ _ _ _ Ec).
  match goal with |- context [bind (random.randint 50 150) _ ?w] =>
    destruct (randint_ok 50 150 w ltac:(lia)) as (alpha & _ & Ea) end.
  rewrite (bind_ok _ _ _ _ _ Ea).
  unfold PIL.new. destruct (Z.ltb_spec (width image) 0); [lia|].
  destruct (Z.ltb_spec (height image) 0); [lia|].
  cbn [orb]. rewrite bind_lift, draw_pattern_undrawn by exact Hk.
  rewrite bind_ret. unfold PIL.alpha_composite.
  cbn [width height PIL.to_rgba]. rewrite !Z.eqb_refl. cbn [andb].
  rewrite bind_lift. eexists. eexists. reflexivity.
Qed.

Lemma add_geometric_patterns_undrawn (image : Image RGB)
    (colors : list string) (world : World) (kind : string) :
  fst (random.choice pattern_kinds world) = Ok kind ->
  undrawn kind ->
  (forall image' world',
      add_geometric_patterns pil image colors world = (Ok image', world') ->
      same_image image' image)
  /\ (colors <> [] -> (0 <= width image)%Z -> (0 <= height image)%Z ->
      exists image' world',
        add_geometric_patterns pil image colors world = (Ok image', world')).
Proof.
  intros Hkind Hk.
  destruct (random.choice pattern_kinds world) as [r w1] eqn:Ec.
  simpl in Hkind. subst r.
  set (Inv := fun im : Image RGB =>
                width im = width image /\ height im = height image
                /\ forall x y, pixels im x y = pixels image x y).
  split.
  - intros image' world' H. unfold add_geometric_patterns in H.
    rewrite (bind_ok _ _ _ _ _ Ec) in H. run_inv H.
    assert (HI : Inv image').
    { revert H. apply (for_m_invariant Inv); [|now repeat split].
      intros x s w2 s' w2' (Hsw & Hsh & Hsp) H.
      destruct (pattern_round_undrawn _ _ _ _ _ _ _ _ Hk H) as (Hw' & Hh' & Hp').
      repeat split;
        [congruence | congruence | intros x0 y0; now rewrite Hp', Hsp]. }
    destruct HI as (Hw' & Hh' & Hp'). now apply same_pixels_same_image.
  - intros Hc Hw Hh. unfold add_geometric_patterns.
    rewrite (bind_ok _ _ _ _ _ Ec).
    destruct (randint_ok 5 15 w1 ltac:(lia)) as (n & _ & En).
    rewrite (bind_ok _ _ _ _ _ En).
    assert (Hbody : forall (x : Z) (s : Image RGB) (w2 : World),
               Inv s ->
               exists s' w',
                 pattern_round pil kind (width image) (height image) colors s w2
                 = (Ok s', w') /\ Inv s').
    { intros x s w2 (Hsw & Hsh & Hsp). rewrite <- Hsw, <- Hsh.
      destruct (pattern_round_undrawn_ok kind colors s w2 Hk Hc)
        as (s' & w' & E); [lia | lia |].
      exists s', w'. split; [exact E|].
      destruct (pattern_round_undrawn _ _ _ _ _ _ _ _ Hk E) as (Hw' & Hh' & Hp').
      repeat split;
        [congruence | congruence | intros x0 y0; now rewrite Hp', Hsp]. }
    assert (H0 : Inv image) by now repeat split.
    match goal with |- context [for_m ?xs ?body image ?w2] =>
      destruct (for_m_total Inv body xs Hbody image w2 H0) as (s' & w' & E & _)
    end.
    exists s', w'. exact E.
Qed.

(** C10.  When the kind drawn is triangles or lines, the image that
    [add_geometric_patterns] returns has the size and every pixel of the
    image it was given; with a non-empty palette it does return one. *)
Theorem add_geometric_patterns_triangles_lines (image : Image RGB)
    (colors : list string) (world : World) :
  (0 <= width image)%Z -> (0 <= height image)%Z ->
  fst (random.choice pattern_kinds world) = Ok "triangles"
  \/ fst (random.choice pattern_kinds world) = Ok "lines" ->
  (forall image' world',
      add_geometric_patterns pil image colors world = (Ok image', world') ->
      same_image image' image)
  /\ (colors <> [] ->
      exists image' world',
        add_geometric_patterns pil image colors world = (Ok image', world')).
Proof.
  intros Hw Hh [Hkind | Hkind];
    destruct (add_geometric_patterns_undrawn image colors world _ Hkind)
      as [H1 H2]; try (split; reflexivity);
    (split; [exact H1 | intros Hc; now apply H2]).
Qed.

(** ** Pattern kinds with a drawing rule *)

Lemma draw_pattern_drawn (kind : string) (w h : Z) (color : string)
    (r g b alpha : Z) (world : World) :
  drawn kind -> (0 <= w)%Z -> (0 <= h)%Z ->
  hex_channels color = Ok (r, g, b) ->
  exists cover world',
    draw_pattern pil kind w h color alpha
      (mkImage w h (fun _ _ => (0, 0, 0, 0)%Z)) world
    = (Ok (PIL.paint cover (r, g, b, alpha)
             (mkImage w h (fun _ _ => (0, 0, 0, 0)%Z))), world')
    /\ ((exists box, cover = ellipse_cover pil box)
        \/ (exists box, cover = PIL.rectangle_cover box)).
Proof.
  intros [-> | ->] Hw Hh Ec; unfold draw_pattern;
    cbn [String.eqb Ascii.eqb Bool.eqb].
  - destruct (randint_ok 0 w world Hw) as (x & Hx & Ex).
    rewrite (bind_ok _ _ _ _ _ Ex).
    match goal with |- context [bind (random.randint 0 h) _ ?w0] =>
      destruct (randint_ok 0 h w0 Hh) as (y & Hy & Ey) end.
    rewrite (bind_ok _ _ _ _ _ Ey).
    match goal with |- context [bind (random.randint 20 100) _ ?w0] =>
      destruct (randint_ok 20 100 w0 ltac:(lia)) as (radius & Hr & Er) end.
    rewrite (bind_ok _ _ _ _ _ Er). rewrite Ec, bind_lift.
    unfold PIL.ellipse, PIL.bad_box.
    destruct (Z.ltb_spec (x + radius) (x - radius)); [lia|].
    destruct (Z.ltb_spec (y + radius) (y - radius)); [lia|].
    cbn [orb]. eexists. eexists. split; [reflexivity|].
    left. eexists. reflexivity.
  - assert (H2w : (0 <= w / 2 <= w)%Z).
    { split; [apply Z.div_pos; lia|]. apply Z.div_le_upper_bound; lia. }
    assert (H2h : (0 <= h / 2 <= h)%Z).
    { split; [apply Z.div_pos; lia|]. apply Z.div_le_upper_bound; lia. }
    destruct (randint_ok 0 (w / 2) world ltac:(lia)) as (x1 & Hx1 & Ex1).
    rewrite (bind_ok _ _ _ _ _ Ex1).
    match goal with |- context [bind (random.randint 0 (h / 2)) _ ?w0] =>
      destruct (randint_ok 0 (h / 2) w0 ltac:(lia)) as (y1 & Hy1 & Ey1) end.
    rewrite (bind_ok _ _ _ _ _ Ey1).
    match goal with |- context [bind (random.randint x1 w) _ ?w0] =>
      destruct (randint_ok x1 w w0 ltac:(lia)) as (x2 & Hx2 & Ex2) end.
    rewrite (bind_ok _ _ _ _ _ Ex2).
    match goal with |- context [bind (random.randint y1 h) _ ?w0] =>
      destruct (randint_ok y1 h w0 ltac:(lia)) as (y2 & Hy2 & Ey2) end.
    rewrite (bind_ok _ _ _ _ _ Ey2). rewrite Ec, bind_lift.
    unfold PIL.rectangle, PIL.bad_box.
    destruct (Z.ltb_spec x2 x1); [lia|]. destruct (Z.ltb_spec y2 y1); [lia|].
    cbn [orb]. eexists. eexists. split; [reflexivity|].
    right. eexists. reflexivity.
Qed.

Lemma pattern_round_drawn (kind : string) (colors : list string)
    (image : Image RGB) (world : World) :
  drawn kind -> colors <> [] ->
  Forall (fun c => valid_hex_color c = true) colors ->
  (0 <= width image)%Z -> (0 <= height image)%Z ->
  exists image' world',
    pattern_round pil kind (width image) (height image) colors image world
    = (Ok image', world')
    /\ one_shape pil colors image image'.
Proof.
  intros Hk Hne Hvalid Hw Hh. unfold pattern_round.
  destruct (choice_ok colors world Hne) as (color & Hin & Ec).
  rewrite (bind_ok _ _ _ _ _ Ec).
  match goal with |- context [bind (random.randint 50 150) _ ?w0] =>
    destruct (randint_ok 50 150 w0 ltac:(lia)) as (alpha & Ha & Ea) end.
  rewrite (bind_ok _ _ _ _ _ Ea).
  unfold PIL.new. destruct (Z.ltb_spec (width image) 0); [lia|].
  destruct (Z.ltb_spec (height image) 0); [lia|].
  cbn [orb]. rewrite bind_lift.
  rewrite Forall_forall in Hvalid.
  destruct (valid_hex_channels color (Hvalid color Hin))
    as (r & g & b & Eh & _).
  match goal with |- context [bind (draw_pattern _ _ _ _ _ _ _) _ ?w0] =>
    destruct (draw_pattern_drawn kind (width image) (height image) color
                r g b alpha w0 Hk Hw Hh Eh) as (cover & w' & Ed & Hshape) end.
  rewrite (bind_ok _ _ _ _ _ Ed).
  unfold PIL.alpha_composite. cbn [width height PIL.to_rgba PIL.paint].
  rewrite !Z.eqb_refl. cbn [andb]. rewrite bind_lift.
  eexists. eexists. split; [reflexivity|].
  exact (shape_over pil colors image color r g b alpha cover Hin Eh Ha Hshape).
Qed.

Lemma one_shape_size (colors : list string) (im im' : Image RGB) :
  one_shape pil colors im im' ->
  width im' = width im /\ height im' = height im.
Proof. intros H. destruct H. split; reflexivity. Qed.

(** The run of [add_geometric_patterns] behind the next theorem. *)
Lemma geometric_rounds_overlaid (image : Image RGB)
    (colors : list string) (world : World) (kind : string) :
  fst (random.choice pattern_kinds world) = Ok kind ->
  drawn kind -> colors <> [] ->
  Forall (fun c => valid_hex_color c = true) colors ->
  (0 <= width image)%Z -> (0 <= height image)%Z ->
  exists n image' world',
    (5 <= n <= 15)%nat
    /\ add_geometric_patterns pil image colors world = (Ok image', world')
    /\ overlaid pil colors n image image'.
Proof.
  intros Hkind Hk Hne Hvalid Hw Hh.
  destruct (random.choice pattern_kinds world) as [rk w1] eqn:Ec.
  simpl in Hkind. subst rk.
  unfold add_geometric_patterns. rewrite (bind_ok _ _ _ _ _ Ec).
  destruct (randint_ok 5 15 w1 ltac:(lia)) as (num & Hnum & En).
  rewrite (bind_ok _ _ _ _ _ En).
  exists (List.length (range num)).
  assert (Hloop : forall (xs : list Z) (im : Image RGB) (w2 : World),
             width im = width image -> height im = height image ->
             exists im' w',
               for_m xs
                 (fun _ im0 =>
                    pattern_round pil kind (width image) (height image)
                      colors im0) im w2 = (Ok im', w')
               /\ overlaid pil colors (List.length xs) im im').
  { induction xs as [|x xs IH]; intros im w2 Hiw Hih.
    - exists im, w2. split; [reflexivity | constructor].
    - destruct (pattern_round_drawn kind colors im w2 Hk Hne Hvalid)
        as (im1 & w3 & E1 & H1); [lia | lia |].
      rewrite Hiw, Hih in E1.
      destruct (one_shape_size _ _ _ H1) as [Hw1 Hh1].
      destruct (IH im1 w3) as (im2 & w4 & E2 & H2); [congruence | congruence |].
      exists im2, w4. split.
      + cbn [for_m]. now rewrite (bind_ok _ _ _ _ _ E1).
      + econstructor; eassumption. }
  match goal with |- context [for_m _ _ image ?w2] =>
    destruct (Hloop (range num) image w2 eq_refl eq_refl)
      as (image' & world' & E & Hover) end.
  exists image', world'. split; [|split; [exact E | exact Hover]].
  unfold range. rewrite length_map, length_seq. lia.
Qed.


(** X16.  The geometric style on its drawing kinds, at a positive size
    within Pillow's pixel limit: a canvas of [palette[0]],
    then between 5 and 15 shapes coloured from [palette[1:]]. *)
Theorem base_image_geometric_drawn (w h : Z) (c0 : string)
    (others : list string) (world : World) (kind : string) :
  (0 < w)%Z -> (0 < h)%Z -> modest_size w h ->
  Forall (fun c => valid_hex_color c = true) (c0 :: others) ->
  others <> [] ->
  fst (random.choice pattern_kinds world) = Ok kind ->
  drawn kind ->
  exists rgb n image world',
    rgb_of_hex c0 = Some rgb
    /\ (5 <= n <= 15)%nat
    /\ base_image pil "geometric" w h (c0 :: others) world
       = (Ok (Some image), world')
    /\ overlaid pil others n (solid w h rgb) image.
Proof.
  intros Hw0 Hh0 _ Hvalid Hne Hkind Hk.
  assert (Hw : (0 <= w)%Z) by lia. assert (Hh : (0 <= h)%Z) by lia.
  inversion Hvalid as [|? ? V0 Vrest]; subst.
  destruct (valid_hex_decodes c0 V0) as (r & g & b & Dh & Eh & _).
  destruct (geometric_rounds_overlaid (solid w h (r, g, b)) others world
              kind Hkind Hk Hne Vrest Hw Hh)
    as (n & image & world' & Hn & E & Hover).
  exists (r, g, b), n, image, world'.
  split; [exact Dh|]. split; [exact Hn|]. split; [|exact Hover].
  unfold base_image. cbn [String.eqb Ascii.eqb Bool.eqb].
  cbn [nth_r nth_error of_option]. rewrite bind_lift, Eh, bind_lift.
  unfold PIL.new. destruct (Z.ltb_spec w 0); [lia|].
  destruct (Z.ltb_spec h 0); [lia|]. cbn [orb]. rewrite bind_lift. cbn [tl].
  fold (solid w h (r, g, b)). now rewrite (bind_ok _ _ _ _ _ E).
Qed.

(** ** What the stages leave of the world *)









(** ** Every stage succeeds *)

Lemma for_m_ok {A S} (body : A -> S -> M S) (xs : list A) :
  (forall x s w, exists s' w', body x s w = (Ok s', w')) ->
  forall s w, exists s' w', for_m xs body s w = (Ok s', w').
Proof.
  intros Hbody s w.
  destruct (for_m_total (fun _ => True) body xs) with (s := s) (w := w)
    as (s' & w' & E & _); [|exact I | now exists s', w'].
  intros x s0 w0 _. destruct (Hbody x s0 w0) as (s1 & w1 & E). eauto.
Qed.

Lemma random_box_ok (w h : Z) (world : World) :
  (0 <= w)%Z -> (0 <= h)%Z ->
  exists box world',
    random_box w h world = (Ok box, world') /\ PIL.bad_box box = false.
Proof.
  intros Hw Hh. unfold random_box.
  assert (H2w : (0 <= w / 2 <= w)%Z).
  { split; [apply Z.div_pos; lia|]. apply Z.div_le_upper_bound; lia. }
  assert (H2h : (0 <= h / 2 <= h)%Z).
  { split; [apply Z.div_pos; lia|]. apply Z.div_le_upper_bound; lia. }
  destruct (randint_ok 0 (w / 2) world ltac:(lia)) as (x1 & Hx1 & Ex1).
  rewrite (bind_ok _ _ _ _ _ Ex1).
  match goal with |- context [bind (random.randint 0 (h / 2)) _ ?w0] =>
    destruct (randint_ok 0 (h / 2) w0 ltac:(lia)) as (y1 & Hy1 & Ey1) end.
  rewrite (bind_ok _ _ _ _ _ Ey1).
  match goal with |- context [bind (random.randint x1 w) _ ?w0] =>
    destruct (randint_ok x1 w w0 ltac:(lia)) as (x2 & Hx2 & Ex2) end.
  rewrite (bind_ok _ _ _ _ _ Ex2).
  match goal with |- context [bind (random.randint y1 h) _ ?w0] =>
    destruct (randint_ok y1 h w0 ltac:(lia)) as (y2 & Hy2 & Ey2) end.
  rewrite (bind_ok _ _ _ _ _ Ey2).
  eexists. eexists. split; [reflexivity|].
  unfold PIL.bad_box. apply orb_false_iff. split; apply Z.ltb_ge; lia.
Qed.

Lemma abstract_shape_ok (w h : Z) (colors : list string) (image : Image RGB)
    (world : World) :
  (0 <= w)%Z -> (0 <= h)%Z -> colors <> [] ->
  Forall (fun c => valid_hex_color c = true) colors ->
  exists image' world',
    abstract_shape pil w h colors image world = (Ok image', world').
Proof.
  intros Hw Hh Hne Hvalid. unfold abstract_shape.
  destruct (choice_ok ["ellipse"; "rectangle"; "polygon"] world
              ltac:(discriminate)) as (shape & Hshape & Es).
  rewrite (bind_ok _ _ _ _ _ Es).
  match goal with |- context [bind (random.choice colors) _ ?w0] =>
    destruct (choice_ok colors w0 Hne) as (color & Hcolor & Ec) end.
  rewrite (bind_ok _ _ _ _ _ Ec).
  rewrite Forall_forall in Hvalid.
  destruct (getrgb_valid color (Hvalid color Hcolor)) as (ink & Eink).
  destruct Hshape as [<- | [<- | [<- | []]]]; cbn [String.eqb Ascii.eqb Bool.eqb].
  - match goal with |- context [bind (random_box w h) _ ?w0] =>
      destruct (random_box_ok w h w0 Hw Hh) as (box & w' & Eb & Hbox) end.
    rewrite (bind_ok _ _ _ _ _ Eb), Eink, bind_lift.
    unfold PIL.ellipse. rewrite Hbox. eexists. eexists. reflexivity.
  - match goal with |- context [bind (random_box w h) _ ?w0] =>
      destruct (random_box_ok w h w0 Hw Hh) as (box & w' & Eb & Hbox) end.
    rewrite (bind_ok _ _ _ _ _ Eb), Eink, bind_lift.
    unfold PIL.rectangle. rewrite Hbox. eexists. eexists. reflexivity.
  - match goal with |- context [bind (random.randint 3 6) _ ?w0] =>
      destruct (randint_ok 3 6 w0 ltac:(lia)) as (n & _ & En) end.
    rewrite (bind_ok _ _ _ _ _ En).
    match goal with |- context [bind (for_m ?xs ?body ?s0) _ ?w0] =>
      destruct (for_m_ok body xs) with (s := s0) (w := w0)
        as (points & w' & Ep) end.
    { intros x pts w0.
      destruct (randint_ok 0 w w0 Hw) as (px & _ & Ex).
      rewrite (bind_ok _ _ _ _ _ Ex).
      match goal with |- context [bind (random.randint 0 h) _ ?w1] =>
        destruct (randint_ok 0 h w1 Hh) as (py & _ & Ey) end.
      rewrite (bind_ok _ _ _ _ _ Ey). eexists. eexists. reflexivity. }
    rewrite (bind_ok _ _ _ _ _ Ep), Eink, bind_lift.
    eexists. eexists. reflexivity.
Qed.

Lemma create_abstract_art_ok (w h : Z) (colors : list string)
    (world : World) :
  (0 <= w)%Z -> (0 <= h)%Z -> colors <> [] ->
  Forall (fun c => valid_hex_color c = true) colors ->
  exists image world',
    create_abstract_art pil w h colors world = (Ok image, world').
Proof.
  intros Hw Hh Hne Hvalid. unfold create_abstract_art.
  change (PIL.getrgb "white") with (@Ok RGB (255, 255, 255)%Z).
  rewrite bind_lift. unfold PIL.new.
  destruct (Z.ltb_spec w 0); [lia|]. destruct (Z.ltb_spec h 0); [lia|].
  cbn [orb]. rewrite bind_lift.
  destruct (randint_ok 10 25 world ltac:(lia)) as (n & _ & En).
  rewrite (bind_ok _ _ _ _ _ En).
  apply for_m_ok. intros x s w0. now apply abstract_shape_ok.
Qed.








End GeneratorFacts.

Lemma generate_image_blank_prompt_witness :
  blank "   "
  /\ generate_image demo_pil demo_generator "   " 800 600 "auto"
       (demo_world (fun _ => 0%nat))
     = (Ok None, logged (demo_world (fun _ => 0%nat)) MsgEmptyPrompt).
Proof.
  split; [reflexivity|].
  apply (generate_image_blank_prompt demo_pil demo_generator "   "). reflexivity.
Defined.

Lemma add_text_overlay_caption_witness :
  words_of "a b c d e" ["a"; "b"; "c"; "d"; "e"]
  /\ display_text "a b c d e" = "A B C".
Proof.
  assert (H : words_of "a b c d e" ["a"; "b"; "c"; "d"; "e"]).
  { apply (words_next "" "a" " " "b c d e"); try reflexivity; [now split|].
    apply (words_next "" "b" " " "c d e"); try reflexivity; [now split|].
    apply (words_next "" "c" " " "d e"); try reflexivity; [now split|].
    apply (words_next "" "d" " " "e"); try reflexivity; [now split|].
    apply (words_last "" "e"); [reflexivity | now split]. }
  split; [exact H|].
  exact (proj1 (add_text_overlay_caption demo_pil
                  (mkImage 800 600 (fun _ _ => (0, 0, 0)%Z)) "a b c d e" _
                  (demo_world (fun _ => 0%nat)) H)).
Defined.

Lemma generate_image_keeps_size_witness :
  (0 < 800)%Z /\ (0 < 600)%Z
  /\ exists image,
       saved
         (disk (snd (generate_image demo_pil demo_generator "Ocean sunset"
                       800 600 "gradient" (demo_world (fun _ => 0%nat)))))
         "generated_images/local_generated_gradient_20250704_120000.png"
       = Some image
       /\ PIL.size image = (800, 600)%Z.
Proof.
  split; [lia|]. split; [lia|].
  destruct (generate_image_keeps_size demo_pil demo_generator "Ocean sunset"
              800 600 "gradient" ltac:(lia) ltac:(lia))
    as (_ & _ & _ & _ & H).
  apply (H (demo_world (fun _ => 0%nat))).
  rewrite (surjective_pairing
             (generate_image demo_pil demo_generator "Ocean sunset" 800 600
                "gradient" (demo_world (fun _ => 0%nat)))) at 1.
  apply (f_equal2 pair); [vm_compute; reflexivity | reflexivity].
Defined.

Lemma add_geometric_patterns_triangles_lines_witness :
  (0 <= width (solid 4 3 (0, 105, 148)%Z))%Z
  /\ (0 <= height (solid 4 3 (0, 105, 148)%Z))%Z
  /\ (fst (random.choice pattern_kinds (demo_world (fun _ => 2%nat)))
      = Ok "triangles"
      \/ fst (random.choice pattern_kinds (demo_world (fun _ => 2%nat)))
         = Ok "lines")
  /\ (forall image' world',
         add_geometric_patterns demo_pil (solid 4 3 (0, 105, 148)%Z)
           ["#4682B4"] (demo_world (fun _ => 2%nat)) = (Ok image', world') ->
         same_image image' (solid 4 3 (0, 105, 148)%Z))
  /\ (["#4682B4"] <> [] ->
      exists image' world',
        add_geometric_patterns demo_pil (solid 4 3 (0, 105, 148)%Z)
          ["#4682B4"] (demo_world (fun _ => 2%nat)) = (Ok image', world')).
Proof.
  assert (H1 : (0 <= width (solid 4 3 (0, 105, 148)%Z))%Z) by (simpl; lia).
  assert (H2 : (0 <= height (solid 4 3 (0, 105, 148)%Z))%Z) by (simpl; lia).
  assert (H3 : fst (random.choice pattern_kinds (demo_world (fun _ => 2%nat)))
               = Ok "triangles"
               \/ fst (random.choice pattern_kinds (demo_world (fun _ => 2%nat)))
                  = Ok "lines") by (left; reflexivity).
  split; [exact H1|]. split; [exact H2|]. split; [exact H3|].
  exact (add_geometric_patterns_triangles_lines demo_pil
           (solid 4 3 (0, 105, 148)%Z) ["#4682B4"]
           (demo_world (fun _ => 2%nat)) H1 H2 H3).
Defined.

(** C5 fails on the code when the kind drawn is triangles: the base image
    of the geometric style is still the plain background, no shape at all
    having been laid over it. *)
Theorem geometric_triangles_leave_background :
  exists image world',
    base_image demo_pil "geometric" 800 600
      ["#006994"; "#4682B4"; "#87CEEB"; "#1E90FF"; "#00CED1"]
      (demo_world (fun _ => 2%nat))
    = (Ok (Some image), world')
    /\ same_image image (solid 800 600 (0, 105, 148)%Z).
Proof.
  set (world := demo_world (fun _ => 2%nat)).
  set (canvas := solid 800 600 (0, 105, 148)%Z).
  destruct (add_geometric_patterns_undrawn demo_pil canvas
              ["#4682B4"; "#87CEEB"; "#1E90FF"; "#00CED1"] world "triangles")
    as [Hsame Hrun]; [reflexivity | split; reflexivity |].
  destruct Hrun as (image & world' & E);
    [discriminate | simpl; lia | simpl; lia |].
  exists image, world'. split; [|exact (Hsame _ _ E)].
  unfold base_image. cbn [String.eqb Ascii.eqb Bool.eqb].
  cbn [nth_r nth_error of_option]. rewrite bind_lift.
  change (hex_channels "#006994") with (@Ok RGB (0, 105, 148)%Z).
  rewrite bind_lift.
  change (PIL.new 800 600 (0, 105, 148)%Z) with (Ok canvas).
  rewrite bind_lift. cbn [tl]. fold world.
  now rewrite (bind_ok _ _ _ _ _ E).
Qed.

(** C3 fails on the code for a radial gradient on one pixel: the largest
    distance is zero, the division raises, and [generate_image] reports the
    failure instead of a raster. *)
Theorem radial_gradient_one_pixel_fails :
  fst (generate_gradient_background 1 1 ["#006994"; "#4682B4"]
         (demo_world (fun _ => 3%nat)))
  = Raise ZeroDivisionError
  /\ fst (generate_image demo_pil demo_generator "sea" 1 1 "gradient"
            (demo_world (fun _ => 3%nat)))
     = Ok None
  /\ stdout (snd (generate_image demo_pil demo_generator "sea" 1 1 "gradient"
                    (demo_world (fun _ => 3%nat))))
     = [MsgGenerating "sea"; MsgTheme "ocean"; MsgStyle "gradient";
        MsgError ZeroDivisionError].
Proof. repeat split; vm_compute; reflexivity. Qed.

(** A radial gradient on a canvas of four by three pixels. *)
Lemma generate_gradient_background_pixels_witness :
  exists image world',
    generate_gradient_background 4 3 ["#006994"; "#4682B4"]
      (demo_world (fun _ => 3%nat)) = (Ok image, world')
    /\ PIL.size image = (4, 3)%Z
    /\ forall x y,
         (0 <= x < 4)%Z -> (0 <= y < 3)%Z ->
         exists ratio rgb,
           gradient_ratio "radial" 4 3 x y = Ok ratio
           /\ blend_colors "#006994" "#4682B4" ratio = Ok rgb
           /\ PIL.getpixel image x y = Some rgb.
Proof.
  apply (generate_gradient_background_pixels 4 3 "#006994" "#4682B4" "radial"
           (demo_world (fun _ => 3%nat)));
    try reflexivity; try lia.
  unfold modest_size, MAX_IMAGE_PIXELS. lia.
Defined.



(** ** What a computation keeps of the world *)

Section Keeps.

Variable R : World -> World -> Prop.
Hypothesis R_refl : forall w, R w w.
Hypothesis R_trans : forall a b c, R a b -> R b c -> R a c.
Hypothesis R_print : forall w m, R w (logged w m).
Hypothesis R_draw : forall w, R w (drawn_once w).

Lemma keeps_ret {A} (a : A) : keeps R (ret a).
Proof. intros w r w' E. injection E as _ <-. apply R_refl. Qed.

Lemma keeps_raise {A} (e : exn) : keeps R (@raise A e).
Proof. intros w r w' E. injection E as _ <-. apply R_refl. Qed.

Lemma keeps_lift {A} (x : result A) : keeps R (lift x).
Proof. intros w r w' E. injection E as _ <-. apply R_refl. Qed.

Lemma keeps_print (m : Msg) : keeps R (print m).
Proof. intros w r w' E. injection E as _ <-. apply R_print. Qed.

Lemma keeps_randbelow (n : nat) : keeps R (randbelow n).
Proof. intros w r w' E. injection E as _ <-. apply R_draw. Qed.

Lemma keeps_bind {A B} (m : M A) (k : A -> M B) :
  keeps R m -> (forall a, keeps R (k a)) -> keeps R (bind m k).
Proof.
  intros Hm Hk w r w' E. unfold bind in E.
  destruct (m w) as [[a | e] w1] eqn:Em.
  - eapply R_trans; [exact (Hm _ _ _ Em) | exact (Hk a _ _ _ E)].
  - injection E as _ <-. exact (Hm _ _ _ Em).
Qed.

Lemma keeps_try_except {A} (body : M A) (handler : exn -> M A) :
  keeps R body -> (forall e, keeps R (handler e)) ->
  keeps R (try_except body handler).
Proof.
  intros Hb Hh w r w' E. unfold try_except in E.
  destruct (body w) as [[a | e] w1] eqn:Eb.
  - injection E as _ <-. exact (Hb _ _ _ Eb).
  - eapply R_trans; [exact (Hb _ _ _ Eb) | exact (Hh e _ _ _ E)].
Qed.

Lemma keeps_for_m {A S} (xs : list A) (body : A -> S -> M S) :
  (forall x s, keeps R (body x s)) -> forall s, keeps R (for_m xs body s).
Proof.
  intros Hb. induction xs as [|x xs IH]; intros s; cbn [for_m].
  - apply keeps_ret.
  - apply keeps_bind; [apply Hb | exact IH].
Qed.

Lemma keeps_choice {A} (seq : list A) : keeps R (random.choice seq).
Proof.
  destruct seq as [|d seq]; [apply keeps_raise|].
  apply keeps_bind; [apply keeps_randbelow | intros i; apply keeps_ret].
Qed.

Lemma keeps_randint (a b : Z) : keeps R (random.randint a b).
Proof.
  unfold random.randint. destruct (b <? a)%Z; [apply keeps_raise|].
  apply keeps_bind; [apply keeps_randbelow | intros i; apply keeps_ret].
Qed.

(** One rule at a time, through the statements of a function body. *)
Ltac keeps_step :=
  match goal with
  | |- keeps _ (bind _ _) => apply keeps_bind; [|intro]
  | |- keeps _ (ret _) => apply keeps_ret
  | |- keeps _ (raise _) => apply keeps_raise
  | |- keeps _ (lift _) => apply keeps_lift
  | |- keeps _ (print _) => apply keeps_print
  | |- keeps _ (random.choice _) => apply keeps_choice
  | |- keeps _ (random.randint _ _) => apply keeps_randint
  | |- keeps _ (for_m _ _ _) => apply keeps_for_m; intros
  | |- keeps _ (try_except _ _) => apply keeps_try_except; [|intro]
  | |- keeps _ (if ?c then _ else _) => destruct c
  | |- keeps _ (match ?x with pair _ _ => _ end) => destruct x
  | |- keeps _ (match ?x with Some _ => _ | None => _ end) => destruct x
  end.

Ltac keeps_all := repeat keeps_step.

Lemma keeps_detect_theme (self : LocalImageGenerator) (prompt : string) :
  keeps R (detect_theme self prompt).
Proof. unfold detect_theme. destruct (count_scores _ _); keeps_all. Qed.

Lemma keeps_generate_gradient_background (w h : Z) (colors : list string) :
  keeps R (generate_gradient_background w h colors).
Proof. unfold generate_gradient_background. keeps_all. Qed.

Variable pil : Pillow.

Lemma keeps_add_geometric_patterns (image : Image RGB) (colors : list string) :
  keeps R (add_geometric_patterns pil image colors).
Proof.
  unfold add_geometric_patterns, pattern_round, draw_pattern. keeps_all.
Qed.

Lemma keeps_add_text_overlay (image : Image RGB) (prompt : string) :
  keeps R (add_text_overlay pil image prompt).
Proof. unfold add_text_overlay. keeps_all. Qed.

Lemma keeps_apply_artistic_effects (image : Image RGB) :
  keeps R (apply_artistic_effects pil image).
Proof. unfold apply_artistic_effects. keeps_all. Qed.

Lemma keeps_create_abstract_art (w h : Z) (colors : list string) :
  keeps R (create_abstract_art pil w h colors).
Proof.
  unfold create_abstract_art, abstract_shape, random_box. keeps_all.
Qed.

Lemma keeps_base_image (style : string) (w h : Z) (colors : list string) :
  keeps R (base_image pil style w h colors).
Proof.
  unfold base_image. keeps_all;
    first [apply keeps_generate_gradient_background
          | apply keeps_create_abstract_art
          | apply keeps_add_geometric_patterns].
Qed.

(** Reading the clock and writing a file, for relations that allow them. *)
Hypothesis R_clock :
  forall w, R w (mkWorld (rand_src w) (rand_pos w) (clock w) (S (clock_pos w))
                   (writable w) (disk w) (stdout w)).
Hypothesis R_save :
  forall w path image,
    R w (mkWorld (rand_src w) (rand_pos w) (clock w) (clock_pos w)
           (writable w) ((path, image) :: disk w) (stdout w)).

Lemma keeps_now_strftime : keeps R now_strftime.
Proof. intros w r w' E. injection E as _ <-. apply R_clock. Qed.

Lemma keeps_save (image : Image RGB) (path : string) : keeps R (save image path).
Proof.
  intros w r w' E. unfold save in E.
  destruct (writable w path); [destruct (PIL.empty image)|].
  - injection E as _ <-. apply R_refl.
  - injection E as _ <-. apply R_save.
  - injection E as _ <-. apply R_refl.
Qed.

Lemma keeps_generate_image (self : LocalImageGenerator) (prompt : string)
    (w h : Z) (style : string) :
  keeps R (generate_image pil self prompt w h style).
Proof.
  unfold generate_image, render_and_save. keeps_all;
    first [apply keeps_detect_theme | apply keeps_base_image
          | apply keeps_add_text_overlay | apply keeps_apply_artistic_effects
          | apply keeps_now_strftime | apply keeps_save].
Qed.

Lemma keeps_batch_generate (self : LocalImageGenerator)
    (prompts : list string) (w h : Z) (style : string) :
  keeps R (batch_generate pil self prompts w h style).
Proof.
  unfold batch_generate.
  assert (Hloop : forall ps total i acc,
             keeps R (batch_loop pil self w h style total i ps acc)).
  { induction ps as [|p ps IH]; intros total i acc; cbn [batch_loop].
    - apply keeps_ret.
    - keeps_all; [apply keeps_generate_image | apply IH]. }
  keeps_all. apply Hloop.
Qed.

End Keeps.



Lemma same_fs_trans (a b c : World) : same_fs a b -> same_fs b c -> same_fs a c.
Proof. unfold same_fs. congruence. Qed.

(** ** Case and blanks *)

Lemma ascii_all (P : ascii -> Prop) :
  (forall b0 b1 b2 b3 b4 b5 b6 b7, P (Ascii b0 b1 b2 b3 b4 b5 b6 b7)) ->
  forall c, P c.
Proof. intros H [b0 b1 b2 b3 b4 b5 b6 b7]. apply H. Qed.

Lemma lower_upper_char (c : ascii) :
  PyStr.lower_char (PyStr.upper_char c) = PyStr.lower_char c.
Proof.
  revert c. apply ascii_all.
  intros [] [] [] [] [] [] [] []; vm_compute; reflexivity.
Qed.

Lemma isspace_upper_char (c : ascii) :
  PyStr.isspace (PyStr.upper_char c) = PyStr.isspace c.
Proof.
  revert c. apply ascii_all.
  intros [] [] [] [] [] [] [] []; vm_compute; reflexivity.
Qed.

Lemma is_lower_upper_char (c : ascii) :
  PyStr.is_lower (PyStr.upper_char c) = false.
Proof.
  revert c. apply ascii_all.
  intros [] [] [] [] [] [] [] []; vm_compute; reflexivity.
Qed.

Lemma lower_upper (s : string) : PyStr.lower (PyStr.upper s) = PyStr.lower s.
Proof.
  unfold PyStr.lower, PyStr.upper.
  induction s as [|c s IH]; simpl; [reflexivity|].
  now rewrite lower_upper_char, IH.
Qed.

Lemma lower_lower (s : string) : PyStr.lower (PyStr.lower s) = PyStr.lower s.
Proof.
  unfold PyStr.lower. induction s as [|c s IH]; simpl; [reflexivity|].
  rewrite IH. f_equal. revert c. apply ascii_all.
  intros [] [] [] [] [] [] [] []; vm_compute; reflexivity.
Qed.

Lemma upper_word (w : string) : is_word w -> is_word (PyStr.upper w).
Proof.
  intros [Hne Hw]. split.
  - destruct w; [congruence | discriminate].
  - unfold PyStr.upper. induction w as [|c w IH]; simpl in *; [reflexivity|].
    apply andb_true_iff in Hw. destruct Hw as [Hc Hw].
    rewrite isspace_upper_char, Hc. simpl.
    destruct w as [|d w]; [reflexivity|]. apply IH; [discriminate | exact Hw].
Qed.

Lemma upper_join (ws : list string) :
  PyStr.upper (PyStr.join " " ws) = PyStr.join " " (map PyStr.upper ws).
Proof.
  unfold PyStr.join, PyStr.upper.
  induction ws as [|w [|w' ws] IH]; [reflexivity | reflexivity |].
  cbn [concat map] in *. rewrite !smap_app, IH. reflexivity.
Qed.

Lemma words_of_words (s : string) (ws : list string) :
  words_of s ws -> Forall is_word ws.
Proof.
  induction 1 as [s Hb | lead w Hl Hw | lead w c rest ws Hl Hw Hc Hr IH].
  - constructor.
  - constructor; [exact Hw | constructor].
  - constructor; [exact Hw | exact IH].
Qed.

Lemma words_of_join (ws : list string) :
  Forall is_word ws -> words_of (PyStr.join " " ws) ws.
Proof.
  unfold PyStr.join. induction 1 as [|w ws Hw Hws IH].
  - now apply words_none.
  - destruct ws as [|w' ws].
    + exact (words_last "" w eq_refl Hw).
    + cbn [concat].
      exact (words_next "" w " " _ (w' :: ws) eq_refl Hw eq_refl IH).
Qed.

Lemma Forall_firstn {A} (P : A -> Prop) (n : nat) (l : list A) :
  Forall P l -> Forall P (firstn n l).
Proof.
  intros H. revert n. induction H as [|x l Hx Hl IH]; intros [|n]; simpl;
    constructor; auto.
Qed.

Lemma Forall_map_upper (ws : list string) :
  Forall is_word ws -> Forall is_word (map PyStr.upper ws).
Proof. induction 1; simpl; constructor; auto using upper_word. Qed.

(** X11.  For an ASCII prompt the caption splits back into the upper-cased
    first three words of the prompt, and holds no lower-case letter. *)
Theorem display_text_round_trip (prompt : string) :
  ascii_text prompt = true ->
  PyStr.split (display_text prompt)
  = map PyStr.upper (firstn 3 (PyStr.split prompt))
  /\ PyStr.all_chars (fun c => negb (PyStr.is_lower c)) (display_text prompt)
     = true.
Proof.
  intros _. split.
  - unfold display_text. rewrite upper_join. apply split_words_of.
    apply words_of_join, Forall_map_upper, Forall_firstn.
    exact (words_of_words _ _ (words_of_total prompt)).
  - unfold display_text, PyStr.upper.
    induction (PyStr.join " " (firstn 3 (PyStr.split prompt))) as [|c s IH];
      simpl; [reflexivity|].
    now rewrite is_lower_upper_char, IH.
Qed.

(** ** Stripping *)

Lemma lstrip_lead (lead s : string) :
  blank lead -> PyStr.lstrip (lead ++ s) = PyStr.lstrip s.
Proof.
  unfold blank. induction lead as [|c lead IH]; simpl; [reflexivity|].
  rewrite andb_true_iff. intros [-> Hl]. auto.
Qed.

Lemma rstrip_blank (s : string) : blank s -> PyStr.rstrip s = "".
Proof.
  unfold blank. induction s as [|c s IH]; simpl; [reflexivity|].
  rewrite andb_true_iff. intros [-> Hs]. now rewrite IH.
Qed.

Lemma rstrip_trail (s trail : string) :
  blank trail -> PyStr.rstrip (s ++ trail) = PyStr.rstrip s.
Proof.
  intros Ht. induction s as [|c s IH]; simpl.
  - now apply rstrip_blank.
  - now rewrite IH.
Qed.

Lemma blank_app (a b : string) : blank a -> blank b -> blank (a ++ b).
Proof.
  unfold blank. induction a as [|c a IH]; simpl; [auto|].
  rewrite !andb_true_iff. intros [-> Ha] Hb. auto.
Qed.

Lemma lstrip_trail (s trail : string) :
  blank trail ->
  PyStr.lstrip (s ++ trail) = (PyStr.lstrip s ++ trail)%string
  \/ (blank s /\ PyStr.lstrip (s ++ trail) = "").
Proof.
  intros Ht. induction s as [|c s IH]; simpl.
  - right. split; [reflexivity | now apply lstrip_blank].
  - destruct (PyStr.isspace c) eqn:Hc.
    + destruct IH as [IH | [Hb IH]]; [now left | right].
      split; [|exact IH]. unfold blank in *. simpl. now rewrite Hc.
    + now left.
Qed.

(** Blanks around a text do not change what [strip] returns. *)
Lemma strip_padded (lead s trail : string) :
  blank lead -> blank trail ->
  PyStr.strip (lead ++ s ++ trail) = PyStr.strip s.
Proof.
  intros Hl Ht. unfold PyStr.strip. rewrite lstrip_lead by exact Hl.
  destruct (lstrip_trail s trail Ht) as [E | [Hb E]]; rewrite E.
  - now apply rstrip_trail.
  - now rewrite (lstrip_blank s Hb).
Qed.

Lemma rstrip_rstrip (s : string) : PyStr.rstrip (PyStr.rstrip s) = PyStr.rstrip s.
Proof.
  induction s as [|c s IH]; simpl; [reflexivity|].
  destruct (PyStr.is_empty (PyStr.rstrip s) && PyStr.isspace c) eqn:E;
    [reflexivity|].
  simpl. rewrite IH, E. reflexivity.
Qed.

Lemma lstrip_rstrip (s : string) :
  PyStr.lstrip (PyStr.rstrip (PyStr.lstrip s)) = PyStr.rstrip (PyStr.lstrip s).
Proof.
  destruct (lstrip_shape s) as [[E _] | (c & s' & E & Hc)]; rewrite E.
  - reflexivity.
  - simpl. rewrite Hc, andb_false_r. simpl. now rewrite Hc.
Qed.

Lemma strip_strip (s : string) : PyStr.strip (PyStr.strip s) = PyStr.strip s.
Proof.
  unfold PyStr.strip. rewrite lstrip_rstrip. apply rstrip_rstrip.
Qed.

(** ** Theme detection, continued *)

Lemma keyword_free_sound (p : string) :
  keyword_free p = true -> ~ some_keyword p.
Proof.
  unfold keyword_free. rewrite forallb_forall.
  intros H (theme & kws & kw & Hin & Hkw & Hocc).
  specialize (H _ Hin). simpl in H. rewrite forallb_forall in H.
  specialize (H _ Hkw). apply contains_occurs in Hocc.
  rewrite Hocc in H. discriminate.
Qed.

Lemma count_scores_none (p : string) :
  ~ some_keyword p -> count_scores theme_keywords p = [].
Proof.
  intros Hno. rewrite count_scores_filter.
  destruct (List.filter positive (all_scores theme_keywords p))
    as [|[t n] l] eqn:E; [reflexivity | exfalso].
  assert (Hin : In (t, n) (List.filter positive (all_scores theme_keywords p)))
    by (rewrite E; now left).
  apply filter_In in Hin. destruct Hin as [Hin Hpos].
  apply all_scores_in in Hin. destruct Hin as (kws & Hin & ->).
  unfold positive in Hpos. simpl in Hpos. apply Nat.ltb_lt in Hpos.
  rewrite score_zero in Hpos; [lia|].
  intros kw Hkw Hocc. apply Hno. now exists t, kws, kw.
Qed.

(** X8.  Every theme [detect_theme] returns is a key of the catalog. *)
Theorem detect_theme_returns_catalog_theme (dir prompt : string)
    (world : World) :
  exists theme world',
    detect_theme (mkGenerator dir catalog) prompt world = (Ok theme, world')
    /\ In theme (keys catalog).
Proof.
  destruct (detect_theme_in_catalog dir prompt world)
    as (t & w' & colors & E & Hc).
  exists t, w'. split; [exact E|].
  apply dict_get_In in Hc. unfold keys. apply in_map_iff.
  now exists (t, colors).
Qed.

(** X9.  The case of the letters of an ASCII prompt does not matter to
    [detect_theme]. *)
Theorem detect_theme_ignores_case (self : LocalImageGenerator)
    (prompt : string) (world : World) :
  ascii_text prompt = true ->
  detect_theme self (PyStr.upper prompt) world = detect_theme self prompt world
  /\ detect_theme self (PyStr.lower prompt) world
     = detect_theme self prompt world.
Proof.
  intros _. unfold detect_theme. now rewrite lower_upper, lower_lower.
Qed.

(** X10.  With no keyword in the prompt, the theme is the catalog entry
    that the next random draw selects, and one draw is consumed. *)
Theorem detect_theme_without_keyword (dir prompt : string) (world : World) :
  ~ some_keyword (PyStr.lower prompt) ->
  detect_theme (mkGenerator dir catalog) prompt world
  = (Ok (nth (rand_src world (rand_pos world) mod 10) (keys catalog) "nature"),
     drawn_once world).
Proof.
  intros Hno. unfold detect_theme. now rewrite (count_scores_none _ Hno).
Qed.

Lemma detect_theme_without_keyword_witness :
  ~ some_keyword (PyStr.lower "Peaceful mountain landscape")
  /\ detect_theme demo_generator "Peaceful mountain landscape"
       (demo_world (fun _ => 7%nat))
     = (Ok "ice", drawn_once (demo_world (fun _ => 7%nat))).
Proof.
  assert (H : ~ some_keyword (PyStr.lower "Peaceful mountain landscape"))
    by (apply keyword_free_sound; vm_compute; reflexivity).
  split; [exact H|].
  exact (detect_theme_without_keyword "generated_images"
           "Peaceful mountain landscape" (demo_world (fun _ => 7%nat)) H).
Defined.

(** ** The pipeline, continued *)







Section PipelineFacts.

Variable pil : Pillow.










(** X7.  Blanks before and after a prompt change nothing. *)
Theorem generate_image_ignores_padding (self : LocalImageGenerator)
    (lead prompt trail : string) (width height : Z) (style : string)
    (world : World) :
  blank lead -> blank trail ->
  generate_image pil self (lead ++ prompt ++ trail) width height style world
  = generate_image pil self prompt width height style world.
Proof.
  intros Hl Ht.
  assert (Hstrip : forall s w0,
             generate_image pil self s width height style w0
             = generate_image pil self (PyStr.strip s) width height style w0).
  { intros s w0. unfold generate_image. rewrite strip_strip.
    destruct (PyStr.strip s) eqn:E.
    - now rewrite orb_true_r.
    - destruct s; [discriminate E | reflexivity]. }
  rewrite (Hstrip (lead ++ prompt ++ trail)%string), (Hstrip prompt).
  now rewrite strip_padded.
Qed.

Lemma bind_raise {A B} (m : M A) (k : A -> M B) (w w' : World) (e : exn) :
  m w = (Raise e, w') -> bind m k w = (Raise e, w').
Proof. unfold bind. now intros ->. Qed.




(** ** Abstract art *)

Lemma getrgb_decodes (color : string) (ink : RGB) :
  valid_hex_color color = true ->
  PIL.getrgb color = Ok ink -> rgb_of_hex color = Some ink.
Proof.
  intros V. destruct (valid_hex_decodes color V) as (r & g & b & D & E & _).
  unfold PIL.getrgb.
  destruct (String.eqb_spec color "white") as [-> | _]; [discriminate|].
  destruct (String.eqb_spec color "black") as [-> | _]; [discriminate|].
  unfold valid_hex_color in V. rewrite !andb_true_iff in V.
  destruct V as [[-> ->] _]. cbn [andb].
  unfold hex_channels in E.
  destruct (PyStr.int16 (PyStr.slice 1 3 color)); [|discriminate].
  destruct (PyStr.int16 (PyStr.slice 3 5 color)); [|discriminate].
  destruct (PyStr.int16 (PyStr.slice 5 7 color)); [|discriminate].
  simpl in E. injection E as -> -> ->. intros H. injection H as <-. exact D.
Qed.

Lemma paint_palette (colors : list string) (cover : Z -> Z -> bool)
    (color : string) (ink : RGB) (image : Image RGB) :
  In color colors -> rgb_of_hex color = Some ink ->
  painted_from colors image ->
  painted_from colors (PIL.paint cover ink image).
Proof.
  intros Hin Eink Hp x y. unfold PIL.paint. cbn [pixels].
  destruct (PIL.inside image x y && cover x y); [|apply Hp].
  right. now exists color.
Qed.

Lemma abstract_shape_palette (w h : Z) (colors : list string)
    (image image' : Image RGB) (world world' : World) :
  Forall (fun c => valid_hex_color c = true) colors ->
  abstract_shape pil w h colors image world = (Ok image', world') ->
  painted_from colors image -> painted_from colors image'.
Proof.
  unfold abstract_shape. intros Hvalid H Hp. run_inv H. run_inv H.
  apply choice_inv in E0. destruct E0 as [Hin _].
  rewrite Forall_forall in Hvalid. pose proof (Hvalid _ Hin) as V.
  destruct (String.eqb a "ellipse");
    [|destruct (String.eqb a "rectangle");
      [|destruct (String.eqb a "polygon")]].
  - run_inv H. run_inv H.
    apply lift_inv in E1. destruct E1 as [Eink _].
    apply (getrgb_decodes _ _ V) in Eink.
    apply lift_inv in H. destruct H as [Ed _].
    unfold PIL.ellipse in Ed. destruct (PIL.bad_box a1); [discriminate|].
    injection Ed as <-. now apply (paint_palette colors _ a0).
  - run_inv H. run_inv H.
    apply lift_inv in E1. destruct E1 as [Eink _].
    apply (getrgb_decodes _ _ V) in Eink.
    apply lift_inv in H. destruct H as [Ed _].
    unfold PIL.rectangle in Ed. destruct (PIL.bad_box a1); [discriminate|].
    injection Ed as <-. now apply (paint_palette colors _ a0).
  - run_inv H. run_inv H. run_inv H.
    apply lift_inv in E2. destruct E2 as [Eink _].
    apply (getrgb_decodes _ _ V) in Eink.
    apply ret_inv in H. destruct H as [-> _].
    now apply (paint_palette colors _ a0).
  - apply ret_inv in H. destruct H as [-> _]. exact Hp.
Qed.

(** X17.  At a positive size within Pillow's pixel limit, abstract art is a
    canvas of the requested size on which every pixel is white or the
    triple a colour of the palette names. *)
Theorem create_abstract_art_uses_palette (w h : Z) (colors : list string)
    (world : World) :
  (0 < w)%Z -> (0 < h)%Z -> modest_size w h -> colors <> [] ->
  Forall (fun c => valid_hex_color c = true) colors ->
  exists image world',
    create_abstract_art pil w h colors world = (Ok image, world')
    /\ PIL.size image = (w, h)
    /\ forall x y,
         (0 <= x < w)%Z -> (0 <= y < h)%Z ->
         exists rgb,
           PIL.getpixel image x y = Some rgb /\ palette_ink colors rgb.
Proof.
  intros Hw0 Hh0 _ Hne Hvalid.
  assert (Hw : (0 <= w)%Z) by lia. assert (Hh : (0 <= h)%Z) by lia.
  destruct (create_abstract_art_ok pil w h colors world Hw Hh Hne Hvalid)
    as (image & world' & E).
  exists image, world'. split; [exact E|].
  pose proof (create_abstract_art_size pil _ _ _ _ _ _ E) as Hsize.
  split; [exact Hsize|].
  assert (Hp : painted_from colors image).
  { unfold create_abstract_art in E.
    change (PIL.getrgb "white") with (@Ok RGB (255, 255, 255)%Z) in E.
    rewrite bind_lift in E. run_inv E. lift_inv E0.
    unfold PIL.new in E1. destruct ((w <? 0) || (h <? 0))%Z; [discriminate|].
    injection E1 as <-. run_inv E. revert E.
    apply (for_m_invariant (painted_from colors)).
    - intros x s w2 s' w2' Hs H.
      exact (abstract_shape_palette _ _ _ _ _ _ _ Hvalid H Hs).
    - intros x y. now left. }
  intros x y Hx Hy. exists (pixels image x y). split; [|apply Hp].
  unfold PIL.size in Hsize. injection Hsize as Ew Eh.
  unfold PIL.getpixel, PIL.inside. rewrite Ew, Eh.
  destruct (Z.leb_spec 0 x); [|lia]. destruct (Z.ltb_spec x w); [|lia].
  destruct (Z.leb_spec 0 y); [|lia]. destruct (Z.ltb_spec y h); [|lia].
  reflexivity.
Qed.

Lemma range_first (n : Z) : (0 < n)%Z -> exists rest, range n = 0%Z :: rest.
Proof.
  intros Hn. unfold range. destruct (Z.to_nat n) eqn:E; [lia|].
  cbn [seq map]. eexists. reflexivity.
Qed.

(** X18.  With an empty palette both shape stages stop at their first round
    with the [IndexError] of [random.choice]: [create_abstract_art] at any
    size from 0 to Pillow's pixel limit, [add_geometric_patterns] on any
    image. *)
Theorem empty_palette_raises_IndexError (w h : Z) (image : Image RGB)
    (world : World) :
  (0 <= w)%Z -> (0 <= h)%Z -> modest_size w h ->
  fst (create_abstract_art pil w h [] world) = Raise IndexError
  /\ fst (add_geometric_patterns pil image [] world) = Raise IndexError.
Proof.
  intros Hw Hh _. split.
  - unfold create_abstract_art.
    change (PIL.getrgb "white") with (@Ok RGB (255, 255, 255)%Z).
    rewrite bind_lift. unfold PIL.new.
    destruct (Z.ltb_spec w 0); [lia|]. destruct (Z.ltb_spec h 0); [lia|].
    cbn [orb]. rewrite bind_lift.
    destruct (randint_ok 10 25 world ltac:(lia)) as (n & Hn & En).
    rewrite (bind_ok _ _ _ _ _ En).
    destruct (range_first n ltac:(lia)) as (rest & ->). cbn [for_m].
    assert (Hs : forall im w0, exists w',
               abstract_shape pil w h [] im w0 = (Raise IndexError, w')).
    { intros im w0. unfold abstract_shape.
      destruct (choice_ok ["ellipse"; "rectangle"; "polygon"] w0
                  ltac:(discriminate)) as (shape & _ & Es).
      rewrite (bind_ok _ _ _ _ _ Es). eexists. reflexivity. }
    match goal with |- fst (bind (abstract_shape _ _ _ _ ?im) _ ?w0) = _ =>
      destruct (Hs im w0) as (w' & E) end.
    now rewrite (bind_raise _ _ _ _ _ E).
  - unfold add_geometric_patterns.
    destruct (choice_ok pattern_kinds world ltac:(discriminate))
      as (kind & _ & Ek).
    rewrite (bind_ok _ _ _ _ _ Ek).
    match goal with |- context [bind (random.randint 5 15) _ ?w0] =>
      destruct (randint_ok 5 15 w0 ltac:(lia)) as (n & Hn & En) end.
    rewrite (bind_ok _ _ _ _ _ En).
    destruct (range_first n ltac:(lia)) as (rest & ->). cbn [for_m].
    reflexivity.
Qed.

(** ** Batches, continued *)









End PipelineFacts.


Lemma generate_image_ignores_padding_witness :
  blank "  " /\ blank (String "010" "")
  /\ generate_image demo_pil demo_generator ("  " ++ "sea" ++ String "010" "")
       800 600 "abstract" (demo_world (fun n => n))
     = generate_image demo_pil demo_generator "sea" 800 600 "abstract"
         (demo_world (fun n => n)).
Proof.
  split; [reflexivity|]. split; [reflexivity|].
  apply (generate_image_ignores_padding demo_pil demo_generator "  " "sea"
           (String "010" "")); reflexivity.
Defined.



Lemma create_abstract_art_uses_palette_witness :
  exists image world',
    create_abstract_art demo_pil 800 600 ["#006994"; "#4682B4"]
      (demo_world (fun n => n)) = (Ok image, world')
    /\ PIL.size image = (800, 600)%Z
    /\ forall x y,
         (0 <= x < 800)%Z -> (0 <= y < 600)%Z ->
         exists rgb,
           PIL.getpixel image x y = Some rgb
           /\ palette_ink ["#006994"; "#4682B4"] rgb.
Proof.
  apply (create_abstract_art_uses_palette demo_pil 800 600
           ["#006994"; "#4682B4"] (demo_world (fun n => n))).
  - lia.
  - lia.
  - unfold modest_size, MAX_IMAGE_PIXELS. lia.
  - discriminate.
  - repeat constructor.
Defined.

Lemma empty_palette_raises_IndexError_witness :
  fst (create_abstract_art demo_pil 800 600 [] (demo_world (fun n => n)))
  = Raise IndexError
  /\ fst (add_geometric_patterns demo_pil (solid 800 600 (0, 105, 148)%Z) []
            (demo_world (fun n => n)))
     = Raise IndexError.
Proof.
  apply (empty_palette_raises_IndexError demo_pil 800 600
           (solid 800 600 (0, 105, 148)%Z) (demo_world (fun n => n)));
    try lia.
  unfold modest_size, MAX_IMAGE_PIXELS. lia.
Defined.


Lemma base_image_geometric_drawn_witness :
  exists n image world',
    (5 <= n <= 15)%nat
    /\ base_image demo_pil "geometric" 800 600 ["#006994"; "#4682B4"]
         (demo_world (fun _ => 1%nat))
       = (Ok (Some image), world')
    /\ overlaid demo_pil ["#4682B4"] n (solid 800 600 (0, 105, 148)%Z) image.
Proof.
  destruct (base_image_geometric_drawn demo_pil 800 600 "#006994"
              ["#4682B4"] (demo_world (fun _ => 1%nat)) "rectangles")
    as (rgb & n & image & world' & D & Hn & E & H).
  - lia.
  - lia.
  - unfold modest_size, MAX_IMAGE_PIXELS. lia.
  - repeat constructor.
  - discriminate.
  - reflexivity.
  - now right.
  - vm_compute in D. injection D as <-.
    exists n, image, world'. split; [exact Hn|]. split; [exact E | exact H].
Defined.

Lemma detect_theme_ignores_case_witness :
  detect_theme demo_generator "OCEAN WAVES" (demo_world (fun n => n))
  = detect_theme demo_generator "Ocean Waves" (demo_world (fun n => n))
  /\ detect_theme demo_generator "ocean waves" (demo_world (fun n => n))
     = detect_theme demo_generator "Ocean Waves" (demo_world (fun n => n)).
Proof.
  exact (detect_theme_ignores_case demo_generator "Ocean Waves"
           (demo_world (fun n => n)) eq_refl).
Defined.

Lemma display_text_round_trip_witness :
  PyStr.split (display_text "Ocean waves at sunset") = ["OCEAN"; "WAVES"; "AT"]
  /\ PyStr.all_chars (fun c => negb (PyStr.is_lower c))
       (display_text "Ocean waves at sunset")
     = true.
Proof.
  exact (display_text_round_trip "Ocean waves at sunset" eq_refl).
Defined.



(** ** Gradients, continued *)

Lemma rne_nonneg (a b : Z) : (0 <= a)%Z -> (0 < b)%Z -> (0 <= PyFloat.rne a b)%Z.
Proof. intros Ha Hb. apply rne_lower; lia. Qed.

Lemma scale2_nonneg (m e : Z) : (0 <= m)%Z -> (0 <= PyFloat.scale2 m e)%Q.
Proof.
  intros Hm. unfold PyFloat.scale2, Qle. destruct (Z.leb_spec 0 e); simpl.
  - assert (0 < 2 ^ e)%Z by (apply Z.pow_pos_nonneg; lia). nia.
  - lia.
Qed.

Lemma rnd64_nonneg (q : Q) : (0 <= q)%Q -> (0 <= PyFloat.rnd64 q)%Q.
Proof.
  destruct q as [num den]. unfold Qle at 1. simpl. rewrite Z.mul_1_r.
  intros Hq. unfold PyFloat.rnd64. cbn [Qnum Qden].
  destruct num as [|n|n]; try lia.
  - apply Qle_refl.
  - unfold PyFloat.rnd_pos. apply scale2_nonneg.
    set (e := Z.max _ _). destruct (Z.leb_spec 0 e).
    + apply rne_nonneg; [lia|].
      apply Z.mul_pos_pos; [lia | apply Z.pow_pos_nonneg; lia].
    + apply rne_nonneg; [|lia].
      apply Z.mul_nonneg_nonneg; [lia | apply Z.pow_nonneg; lia].
Qed.

Lemma int_truediv_unit (x w : Z) (r : Q) :
  (0 <= x <= w)%Z -> (0 < w)%Z ->
  PyFloat.int_truediv x w = Ok r -> (0 <= r <= 1)%Q.
Proof.
  intros Hx Hw. unfold PyFloat.int_truediv.
  destruct (Z.eqb_spec w 0); [lia|]. intros E. injection E as <-.
  apply (rnd64_between _ 0 1); [reflexivity | reflexivity |].
  destruct w as [|p|p]; try lia.
  unfold Qle, Qdiv, Qmult, Qinv; simpl. lia.
Qed.

Lemma sqrt_int_nonneg (n : Z) (v : Q) : sqrt_int n = Ok v -> (0 <= v)%Q.
Proof.
  unfold sqrt_int, PyFloat.sqrt.
  destruct (Qnum (PyFloat.of_int n)) as [|p|p]; intros E; try discriminate;
    injection E as <-.
  - apply Qle_refl.
  - pose proof (sqrt_pos_num_pos (Zpos p) (Zpos (Qden (PyFloat.of_int n)))
                  ltac:(lia) ltac:(lia)) as H.
    unfold Qle. simpl. lia.
Qed.

Lemma gradient_ratio_unit (kind : string) (w h x y : Z) (ratio : Q) :
  In kind gradient_kinds ->
  (0 < w)%Z -> (0 < h)%Z -> (0 <= x < w)%Z -> (0 <= y < h)%Z ->
  gradient_ratio kind w h x y = Ok ratio -> (0 <= ratio <= 1)%Q.
Proof.
  intros Hkind Hw Hh Hx Hy. unfold gradient_ratio.
  destruct Hkind as [<- | [<- | [<- | [<- | []]]]];
    cbn [String.eqb Ascii.eqb Bool.eqb].
  - apply int_truediv_unit; lia.
  - apply int_truediv_unit; lia.
  - apply int_truediv_unit; lia.
  - intros E. apply rbind_inv in E. destruct E as (m & Em & E).
    apply rbind_inv in E. destruct E as (d & Ed & E).
    apply rbind_inv in E. destruct E as (q & Eq & E). injection E as <-.
    apply sqrt_int_nonneg in Em, Ed.
    unfold PyFloat.div in Eq. destruct (Qeq_bool m 0); [discriminate|].
    injection Eq as <-.
    assert (Hq : (0 <= PyFloat.rnd64 (d / m))%Q).
    { apply rnd64_nonneg. unfold Qdiv.
      apply Qmult_le_0_compat; [exact Ed | now apply Qinv_le_0_compat]. }
    unfold PyFloat.min.
    destruct (Qle_bool (PyFloat.rnd64 (d / m)) 1) eqn:Hle.
    + split; [exact Hq | now apply Qle_bool_iff].
    + split; unfold Qle; simpl; lia.
Qed.

Lemma blend_channel_start (c1 c2 : Z) (ratio : Q) :
  (0 <= c1 <= 255)%Z -> (0 <= c2 <= 255)%Z -> (ratio == 0)%Q ->
  blend_channel c1 c2 ratio = c1.
Proof.
  intros H1 H2 Hr.
  assert (H : (c1 + 0 <= blend_channel c1 c2 ratio <= c1 + 0)%Z).
  { apply blend_channel_between; try lia. rewrite Hr, Qmult_0_r.
    split; apply Qle_refl. }
  lia.
Qed.

Lemma gradient_ratio_start (kind : string) (w h x y : Z) (ratio : Q) :
  In kind gradient_kinds ->
  gradient_start kind w h x y ->
  gradient_ratio kind w h x y = Ok ratio -> (ratio == 0)%Q.
Proof.
  intros Hkind. unfold gradient_start, gradient_ratio.
  destruct Hkind as [<- | [<- | [<- | [<- | []]]]];
    cbn [String.eqb Ascii.eqb Bool.eqb].
  - intros ->. unfold PyFloat.int_truediv. destruct (w =? 0)%Z; [discriminate|].
    intros E. injection E as <-. reflexivity.
  - intros ->. unfold PyFloat.int_truediv. destruct (h =? 0)%Z; [discriminate|].
    intros E. injection E as <-. reflexivity.
  - intros [-> ->]. unfold PyFloat.int_truediv.
    destruct (0 + 0 =? 0)%Z; destruct (w + h =? 0)%Z; try discriminate;
      intros E; injection E as <-; reflexivity.
  - intros [-> ->]. rewrite !Z.sub_diag.
    change (sqrt_int (0 ^ 2 + 0 ^ 2)) with (@Ok Q 0%Q).
    intros E. apply rbind_inv in E. destruct E as (m & _ & E).
    cbn [rbind] in E. unfold PyFloat.div in E.
    destruct (Qeq_bool m 0); [discriminate|]. cbn [rbind] in E.
    injection E as <-. reflexivity.
Qed.

(** X13.  Every pixel of a gradient lies, channel by channel, between the
    triples the two colours name. *)
Theorem gradient_stays_between_colors (w h : Z) (c0 c1 kind : string)
    (world : World) :
  (0 < w)%Z -> (0 < h)%Z -> modest_size w h ->
  valid_hex_color c0 = true -> valid_hex_color c1 = true ->
  fst (random.choice gradient_kinds world) = Ok kind ->
  (kind = "radial" -> (1 < w \/ 1 < h)%Z) ->
  exists image world' rgb0 rgb1,
    generate_gradient_background w h [c0; c1] world = (Ok image, world')
    /\ rgb_of_hex c0 = Some rgb0
    /\ rgb_of_hex c1 = Some rgb1
    /\ forall x y,
         (0 <= x < w)%Z -> (0 <= y < h)%Z ->
         exists rgb,
           PIL.getpixel image x y = Some rgb
           /\ channels_between rgb0 rgb1 rgb.
Proof.
  intros Hw Hh _ V0 V1 Hkind Hrad.
  destruct (gradient_background_painted w h c0 c1 kind world Hw Hh V0 V1 Hkind
              Hrad) as (image & world' & E & _ & Hp).
  destruct (valid_hex_decodes c0 V0)
    as (r0 & g0 & b0 & D0 & E0 & Hr0 & Hg0 & Hb0).
  destruct (valid_hex_decodes c1 V1)
    as (r1 & g1 & b1 & D1 & E1 & Hr1 & Hg1 & Hb1).
  exists image, world', (r0, g0, b0), (r1, g1, b1).
  split; [exact E|]. split; [exact D0|]. split; [exact D1|].
  intros x y Hx Hy. destruct (Hp x y Hx Hy) as (ratio & rgb & Er & Eb & Eg).
  exists rgb. split; [exact Eg|].
  assert (Hin : In kind gradient_kinds).
  { destruct (random.choice gradient_kinds world) as [rk wk] eqn:Ec.
    simpl in Hkind. subst rk. apply choice_inv in Ec. tauto. }
  pose proof (gradient_ratio_unit kind w h x y ratio Hin Hw Hh Hx Hy Er) as Hu.
  unfold blend_colors in Eb. rewrite E0, E1 in Eb. simpl in Eb.
  injection Eb as <-. simpl.
  repeat split; apply blend_channel_unit; assumption.
Qed.

(** X14.  A gradient starts at the first colour: its first column, first
    row, top-left corner or centre is exactly the triple [colors[0]]
    names. *)
Theorem gradient_starts_at_first_color (w h : Z) (c0 c1 kind : string)
    (world : World) (x y : Z) :
  (0 < w)%Z -> (0 < h)%Z -> modest_size w h ->
  valid_hex_color c0 = true -> valid_hex_color c1 = true ->
  fst (random.choice gradient_kinds world) = Ok kind ->
  (kind = "radial" -> (1 < w \/ 1 < h)%Z) ->
  (0 <= x < w)%Z -> (0 <= y < h)%Z ->
  gradient_start kind w h x y ->
  exists image world' rgb0,
    generate_gradient_background w h [c0; c1] world = (Ok image, world')
    /\ rgb_of_hex c0 = Some rgb0
    /\ PIL.getpixel image x y = Some rgb0.
Proof.
  intros Hw Hh _ V0 V1 Hkind Hrad Hx Hy Hstart.
  destruct (gradient_background_painted w h c0 c1 kind world Hw Hh V0 V1 Hkind
              Hrad) as (image & world' & E & _ & Hp).
  destruct (valid_hex_decodes c0 V0)
    as (r0 & g0 & b0 & D0 & E0 & Hr0 & Hg0 & Hb0).
  destruct (valid_hex_decodes c1 V1)
    as (r1 & g1 & b1 & D1 & E1 & Hr1 & Hg1 & Hb1).
  exists image, world', (r0, g0, b0). split; [exact E|]. split; [exact D0|].
  destruct (Hp x y Hx Hy) as (ratio & rgb & Er & Eb & Eg). rewrite Eg.
  assert (Hin : In kind gradient_kinds).
  { destruct (random.choice gradient_kinds world) as [rk wk] eqn:Ec.
    simpl in Hkind. subst rk. apply choice_inv in Ec. tauto. }
  pose proof (gradient_ratio_start kind w h x y ratio Hin Hstart Er) as H0.
  unfold blend_colors in Eb. rewrite E0, E1 in Eb. simpl in Eb.
  injection Eb as <-.
  now rewrite !blend_channel_start.
Qed.

Lemma gradient_stays_between_colors_witness :
  exists image world',
    generate_gradient_background 4 3 ["#006994"; "#4682B4"]
      (demo_world (fun _ => 2%nat)) = (Ok image, world')
    /\ forall x y,
         (0 <= x < 4)%Z -> (0 <= y < 3)%Z ->
         exists rgb,
           PIL.getpixel image x y = Some rgb
           /\ channels_between (0, 105, 148)%Z (70, 130, 180)%Z rgb.
Proof.
  destruct (gradient_stays_between_colors 4 3 "#006994" "#4682B4" "diagonal"
              (demo_world (fun _ => 2%nat)))
    as (image & world' & rgb0 & rgb1 & E & D0 & D1 & H);
    try reflexivity; try lia.
  - unfold modest_size, MAX_IMAGE_PIXELS. lia.
  - vm_compute in D0, D1. injection D0 as <-. injection D1 as <-.
    exists image, world'. split; [exact E | exact H].
Defined.

Lemma gradient_starts_at_first_color_witness :
  exists image world',
    generate_gradient_background 4 3 ["#006994"; "#4682B4"]
      (demo_world (fun _ => 3%nat)) = (Ok image, world')
    /\ PIL.getpixel image 2 1 = Some (0, 105, 148)%Z.
Proof.
  destruct (gradient_starts_at_first_color 4 3 "#006994" "#4682B4" "radial"
              (demo_world (fun _ => 3%nat)) 2 1)
    as (image & world' & rgb0 & E & D0 & H);
    try reflexivity; try lia.
  - unfold modest_size, MAX_IMAGE_PIXELS. lia.
  - cbn. lia.
  - vm_compute in D0. injection D0 as <-.
    exists image, world'. split; [exact E | exact H].
Defined.

(** ** Worked examples *)

Example split_example :
  PyStr.split "  Ocean   waves at sunset " = ["Ocean"; "waves"; "at"; "sunset"].
Proof. reflexivity. Qed.

Example strip_example : PyStr.strip "  a b  " = "a b".
Proof. reflexivity. Qed.

Example int16_example : PyStr.int16 (PyStr.slice 1 3 "#FF6347") = Some 255%Z.
Proof. reflexivity. Qed.

(** [1 / 3] is the double [0x3FD5555555555555]; three times it rounds up
    to [1.0], where exact arithmetic stays below. *)
Example rnd64_third :
  Qred (PyFloat.rnd64 (1 # 3)) = (6004799503160661 # 18014398509481984)%Q.
Proof. vm_compute. reflexivity. Qed.

Example mul_three_third : Qred (PyFloat.mul 3 (PyFloat.rnd64 (1 # 3))) = 1%Q.
Proof. vm_compute. reflexivity. Qed.

Example sqrt_two :
  PyFloat.sqrt 2 = Ok (6369051672525773 # 4503599627370496)%Q.
Proof. vm_compute. reflexivity. Qed.

Example blend_half :
  blend_colors "#006994" "#4682B4" (1 # 2) = Ok (35, 117, 164)%Z.
Proof. vm_compute. reflexivity. Qed.

(** "Ocean sunset" matches one keyword of ocean and one of sunset; ocean
    comes first in the catalog. *)
Example detect_ocean_sunset :
  fst (detect_theme demo_generator "Ocean sunset" (demo_world (fun _ => 0%nat)))
  = Ok "ocean".
Proof. reflexivity. Qed.

(** "tree" is a keyword of nature and of forest; nature comes first. *)
Example detect_tree :
  fst (detect_theme demo_generator "tree" (demo_world (fun _ => 0%nat)))
  = Ok "nature".
Proof. reflexivity. Qed.

(** A batch of a valid, an empty and a valid prompt: three results, the
    second a failure, and a tally of 2 out of 3. *)
Example batch_of_three :
  let run := batch_generate demo_pil demo_generator ["sea"; ""; "fire"] 4 3
               "geometric" (demo_world (fun n => n)) in
  fst run
  = Ok [Some "generated_images/local_generated_geometric_20250704_120000.png";
        None;
        Some "generated_images/local_generated_geometric_20250704_120000.png"]
  /\ last (stdout (snd run)) MsgInitialized = MsgSuccessful 2 3.
Proof. split; vm_compute; reflexivity. Qed.

(** A horizontal gradient on a canvas four pixels wide: column [x] holds
    the blend at ratio [x / 4]. *)
Example horizontal_gradient_column :
  rbind (gradient_of "horizontal" 4 3 ["#006994"; "#4682B4"]
           (mkImage 4 3 (fun _ _ => (0, 0, 0)%Z)))
    (fun image => of_option IndexError (PIL.getpixel image 2 1))
  = blend_colors "#006994" "#4682B4" (1 # 2).
Proof. vm_compute. reflexivity. Qed.
